(** * Synchronized checkpoints (checkpointsync.cpp)

    A shallow embedding of the checkpoint synchronisation code of the node:
    the block index it consults, the process-wide checkpoint variables it
    mutates, and the operations [ValidateSyncCheckpoint],
    [WriteSyncCheckpoint], [AcceptPendingSyncCheckpoint],
    [AutoSelectSyncCheckpoint], [CheckSyncCheckpoint], [ResetSyncCheckpoint],
    [CheckSignature] and [ProcessSyncCheckpoint]. *)

From stdpp Require Import gmap list strings.
From Stdlib Require Import ZArith Lia.
From Stdlib.Strings Require Import Byte.

Open Scope Z_scope.

(** ** Machine integers *)

(** [int] is a 32-bit two's complement integer.  Heights are stored in [int]
    fields; the only arithmetic the checkpoint code performs on them is the
    [+ 1] of [CheckSyncCheckpoint] and the [+ depth] of
    [AutoSelectSyncCheckpoint].  A sum that leaves the range is modelled as
    the two's complement wrap-around, and so is the [(int)] cast of the
    64-bit value of the [-checkpointdepth] argument. *)
Definition INT_MAX : Z := 2147483647.
Definition INT_MIN : Z := -2147483648.

Definition to_int (z : Z) : Z := (z + 2147483648) mod 4294967296 - 2147483648.

Definition int_add (a b : Z) : Z := to_int (a + b).

(** A [uint256] is a number below [2^256]; the all-zero value is the
    "unset" sentinel [ArithToUint256(arith_uint256(0))]. *)
Abbreviation uint256 := Z (only parsing).
Definition uint256_zero : uint256 := 0.

(** ** The block index *)

(** [CBlockIndex*] values are addresses; [NULL] is [None]. *)
Abbreviation ptr := positive (only parsing).

Record CBlockIndex := mkBlockIndex {
  phashBlock : uint256;
  pprev : option ptr;
  nHeight : Z
}.

(** Modelled from the spec: [chain.h] and [main.h] are not among the sources.
    [CChain] is the vector of the blocks of the canonical chain indexed by
    height; [mapBlockIndex] maps a block hash to the address of its index
    entry; [vBlocks] is the memory holding the entries. *)
Record BlockIndex := mkIndex {
  vBlocks : gmap ptr CBlockIndex;
  mapBlockIndex : gmap Z ptr;
  chainActive : list ptr
}.

(** What can stop an operation before it returns. *)
Inductive fault :=
| BadPointer      (* a null or dangling [CBlockIndex*] is dereferenced *)
| OutOfFuel       (* a loop was cut off by the step bound of the model *)
| StreamFailure.  (* unserialising the payload throws *)

Inductive outcome (A : Type) :=
| Done (a : A)
| Stuck (f : fault).
Arguments Done {A} a.
Arguments Stuck {A} f.

#[global] Instance outcome_ret : MRet outcome := fun A a => Done a.

#[global] Instance outcome_bind : MBind outcome := fun A B k m =>
  match m with
  | Done a => k a
  | Stuck f => Stuck f
  end.

Definition deref (ix : BlockIndex) (p : ptr) : outcome CBlockIndex :=
  match vBlocks ix !! p with
  | Some b => Done b
  | None => Stuck BadPointer
  end.

(** [mapBlockIndex.count(h)] *)
Definition count (ix : BlockIndex) (h : uint256) : bool :=
  bool_decide (is_Some (mapBlockIndex ix !! h)).

(** [mapBlockIndex[h]].  The code reads an entry only under a successful
    [count(h)]; the absent key, never reached, would yield a null pointer
    and is a fault here. *)
Definition at_hash (ix : BlockIndex) (h : uint256) : outcome ptr :=
  match mapBlockIndex ix !! h with
  | Some p => Done p
  | None => Stuck BadPointer
  end.

(** Modelled from the spec: [CChain] of [chain.h] is missing.  The entry of
    the canonical chain at a height, null outside [0 .. size-1]. *)
Definition chain_at (ix : BlockIndex) (h : Z) : option ptr :=
  if (h <? 0) || (Z.of_nat (length (chainActive ix)) <=? h) then None
  else chainActive ix !! Z.to_nat h.

(** Modelled from the spec: [CChain::Contains] of [chain.h] is missing.  A
    block is on the canonical chain when the chain's entry at the block's
    height is that very block. *)
Definition Contains (ix : BlockIndex) (p : ptr) : outcome bool :=
  b ← deref ix p;
  Done (bool_decide (chain_at ix (nHeight b) = Some p)).

(** Modelled from the spec: [CChain::Tip] of [chain.h] is missing.  The
    last block of the canonical chain, null when the chain is empty. *)
Definition Tip (ix : BlockIndex) : option ptr := last (chainActive ix).

(** ** Checkpoint messages and the primitives they rely on *)

(** Modelled from the spec: [checkpointsync.h] is not among the sources.  A
    signed checkpoint message carries the checkpoint hash, the canonical
    payload bytes and the signature over them; the null message has the zero
    hash and empty byte vectors. *)
Record CSyncCheckpoint := mkMsg {
  hashCheckpoint : uint256;
  vchMsg : list byte;
  vchSig : list byte
}.

Definition SetNull : CSyncCheckpoint := mkMsg uint256_zero [] [].

(** Key parsing, hashing, signature verification and payload decoding are
    consumed as opaque operations.  [Unserialize] is the stream extraction
    [sMsg >> *(CUnsignedSyncCheckpoint* )this]; it gives [None] where the
    stream throws. *)
Class Primitives := {
  ParseHex : string -> list byte;
  Hash : list byte -> uint256;
  Verify : list byte -> uint256 -> list byte -> bool;
  Unserialize : list byte -> option uint256
}.

(** Consensus parameters, configuration and the behaviour of the block-tree
    database on the write of a checkpoint hash. *)
Record Node := mkNode {
  hashGenesisBlock : uint256;
  checkpointPubKey : string;
  hashLatestHardened : uint256;  (* Checkpoints::GetLatestHardenedCheckpoint *)
  checkpointdepth : Z;           (* GetArg("-checkpointdepth", -1) *)
  txdbWrite : uint256 -> bool    (* pblocktree->WriteSyncCheckpoint(h) *)
}.

(** ** The process-wide checkpoint variables

    [dbSyncCheckpoint] is the value under the [syncCheckpoint] key of the
    block-tree database.  [strCheckpointWarning] and [strMasterPrivKey] are
    declared by the file but read or written by none of the operations
    below. *)
Record State := mkState {
  hashSyncCheckpoint : uint256;
  hashPendingCheckpoint : uint256;
  checkpointMessage : CSyncCheckpoint;
  checkpointMessagePending : CSyncCheckpoint;
  hashInvalidCheckpoint : uint256;
  dbSyncCheckpoint : option uint256
}.

Definition set_hashInvalidCheckpoint (h : uint256) (st : State) : State :=
  mkState (hashSyncCheckpoint st) (hashPendingCheckpoint st)
          (checkpointMessage st) (checkpointMessagePending st)
          h (dbSyncCheckpoint st).

Definition set_pending (h : uint256) (m : CSyncCheckpoint) (st : State) : State :=
  mkState (hashSyncCheckpoint st) h
          (checkpointMessage st) m
          (hashInvalidCheckpoint st) (dbSyncCheckpoint st).

Definition set_checkpointMessage (m : CSyncCheckpoint) (st : State) : State :=
  mkState (hashSyncCheckpoint st) (hashPendingCheckpoint st)
          m (checkpointMessagePending st)
          (hashInvalidCheckpoint st) (dbSyncCheckpoint st).

Definition commit_checkpoint (h : uint256) (st : State) : State :=
  mkState h (hashPendingCheckpoint st)
          (checkpointMessage st) (checkpointMessagePending st)
          (hashInvalidCheckpoint st) (Some h).

(** ** Operations *)

(** The loop shared by [ValidateSyncCheckpoint] and [CheckSyncCheckpoint]:
<<
    while (pindex->nHeight > target)
        if (!(pindex = pindex->pprev))
            return error(...);
>>
    [Done None] is the early [return error(...)], [Done (Some p)] the block
    the loop stops at. *)
Fixpoint trace_back (fuel : nat) (ix : BlockIndex) (pindex : ptr) (target : Z)
  : outcome (option ptr) :=
  b ← deref ix pindex;
  if target <? nHeight b then
    match pprev b with
    | None => Done None
    | Some q =>
        match fuel with
        | O => Stuck OutOfFuel
        | S n => trace_back n ix q target
        end
    end
  else Done (Some pindex).

(** Only descendant of current sync-checkpoint is allowed *)
Definition ValidateSyncCheckpoint (fuel : nat) (ix : BlockIndex)
    (hashCheckpoint : uint256) (st : State) : outcome (bool * State) :=
  if negb (count ix (hashSyncCheckpoint st)) then Done (false, st)
  else if negb (count ix hashCheckpoint) then Done (false, st)
  else
    pindexSyncCheckpoint ← at_hash ix (hashSyncCheckpoint st);
    pindexCheckpointRecv ← at_hash ix hashCheckpoint;
    bRecv ← deref ix pindexCheckpointRecv;
    bSync ← deref ix pindexSyncCheckpoint;
    if nHeight bRecv <=? nHeight bSync then
      onChain ← Contains ix pindexCheckpointRecv;
      if negb onChain
      then Done (false, set_hashInvalidCheckpoint hashCheckpoint st)
      else Done (false, st) (* ignore older checkpoint *)
    else
      r ← trace_back fuel ix pindexCheckpointRecv (nHeight bSync);
      match r with
      | None => Done (false, st)
      | Some pindex =>
          b ← deref ix pindex;
          if negb (phashBlock b =? hashSyncCheckpoint st)
          then Done (false, set_hashInvalidCheckpoint hashCheckpoint st)
          else Done (true, st)
      end.

(** [FlushStateToDisk] concerns the chain state, none of the variables
    above. *)
Definition WriteSyncCheckpoint (nd : Node) (hashCheckpoint : uint256)
    (st : State) : bool * State :=
  if negb (txdbWrite nd hashCheckpoint) then (false, st)
  else (true, commit_checkpoint hashCheckpoint st).

(** The relay of the accepted message to the peers at the end touches no
    checkpoint variable and is left out. *)
Definition AcceptPendingSyncCheckpoint (fuel : nat) (nd : Node)
    (ix : BlockIndex) (st : State) : outcome (bool * State) :=
  let havePendingCheckpoint :=
    negb (hashPendingCheckpoint st =? uint256_zero)
    && count ix (hashPendingCheckpoint st) in
  if negb havePendingCheckpoint then Done (false, st)
  else
    '(valid, st1) ← ValidateSyncCheckpoint fuel ix (hashPendingCheckpoint st) st;
    if negb valid then Done (false, set_pending uint256_zero SetNull st1)
    else
      p ← at_hash ix (hashPendingCheckpoint st1);
      onChain ← Contains ix p;
      if negb onChain then Done (false, st1)
      else
        let '(written, st2) :=
          WriteSyncCheckpoint nd (hashPendingCheckpoint st1) st1 in
        if negb written then Done (false, st2)
        else
          Done (true,
                set_pending uint256_zero SetNull
                  (set_checkpointMessage (checkpointMessagePending st2) st2)).

(** The loop of [AutoSelectSyncCheckpoint]:
<<
    while (pindex->pprev && pindex->nHeight + depth > tipHeight)
        pindex = pindex->pprev;
>> *)
Fixpoint search_backward (fuel : nat) (ix : BlockIndex) (depth tipHeight : Z)
    (pindex : ptr) : outcome ptr :=
  b ← deref ix pindex;
  match pprev b with
  | None => Done pindex
  | Some q =>
      if tipHeight <? int_add (nHeight b) depth then
        match fuel with
        | O => Stuck OutOfFuel
        | S n => search_backward n ix depth tipHeight q
        end
      else Done pindex
  end.

(** Automatically select a suitable sync-checkpoint *)
Definition AutoSelectSyncCheckpoint (fuel : nat) (nd : Node) (ix : BlockIndex)
  : outcome uint256 :=
  match Tip ix with
  | None => Stuck BadPointer
  | Some tip =>
      bTip ← deref ix tip;
      pindex ← search_backward fuel ix (to_int (checkpointdepth nd))
                 (nHeight bTip) tip;
      b ← deref ix pindex;
      Done (phashBlock b)
  end.

(** Check against synchronized checkpoint *)
Definition CheckSyncCheckpoint (fuel : nat) (nd : Node) (ix : BlockIndex)
    (hashBlock : uint256) (pindexPrev : ptr) (st : State)
  : outcome (bool * State) :=
  bPrev ← deref ix pindexPrev;
  let nHeight' := int_add (nHeight bPrev) 1 in
  if (hashSyncCheckpoint st =? uint256_zero)
     || negb (count ix (hashSyncCheckpoint st))
  then Done (true, snd (WriteSyncCheckpoint nd (hashGenesisBlock nd) st))
  else
    pindexSync ← at_hash ix (hashSyncCheckpoint st);
    bSync ← deref ix pindexSync;
    let tail :=
      if (nHeight' =? nHeight bSync)
         && negb (hashBlock =? hashSyncCheckpoint st)
      then false (* Same height with sync-checkpoint *)
      else if (nHeight' <? nHeight bSync) && negb (count ix hashBlock)
      then false (* Lower height than sync-checkpoint *)
      else true in
    if nHeight bSync <? nHeight' then
      r ← trace_back fuel ix pindexPrev (nHeight bSync);
      match r with
      | None => Done (false, st)
      | Some pindex =>
          onChain ← Contains ix pindex;
          if negb onChain then Done (false, st) else Done (tail, st)
      end
    else Done (tail, st).

(** Reset synchronized checkpoint to last hardened checkpoint *)
Definition ResetSyncCheckpoint (nd : Node) (ix : BlockIndex) (st : State)
  : outcome (bool * State) :=
  let checkpointHash := hashLatestHardened nd in
  let st1 :=
    if negb (count ix checkpointHash)
    then set_pending checkpointHash SetNull st
    else st in
  onChain ← (if count ix checkpointHash
             then at_hash ix checkpointHash ≫= Contains ix
             else Done false);
  Done (WriteSyncCheckpoint nd
          (if onChain : bool then checkpointHash else hashGenesisBlock nd)
          st1).

Section Messages.
Context `{Primitives}.

(** [key.Verify(Hash(vchMsg.begin(), vchMsg.end()), vchSig)] under the master
    public key of the consensus parameters. *)
Definition signature_verifies (nd : Node) (this : CSyncCheckpoint) : bool :=
  Verify (ParseHex (checkpointPubKey nd)) (Hash (vchMsg this)) (vchSig this).

(** Verify signature of sync-checkpoint message.  The result carries the
    message object, whose [hashCheckpoint] the extraction overwrites. *)
Definition CheckSignature (nd : Node) (this : CSyncCheckpoint)
  : outcome (bool * CSyncCheckpoint) :=
  if negb (signature_verifies nd this)
  then Done (false, this)
  else
    match Unserialize (vchMsg this) with
    | None => Stuck StreamFailure
    | Some h => Done (true, mkMsg h (vchMsg this) (vchSig this))
    end.

(** Process synchronized checkpoint *)
Definition ProcessSyncCheckpoint (fuel : nat) (nd : Node) (ix : BlockIndex)
    (this : CSyncCheckpoint) (st : State)
  : outcome (bool * CSyncCheckpoint * State) :=
  '(signed, this) ← CheckSignature nd this;
  if negb signed then Done (false, this, st)
  else if negb (count ix (hashCheckpoint this)) then
    (* We haven't received the checkpoint chain, keep the checkpoint as
       pending *)
    Done (false, this, set_pending (hashCheckpoint this) this st)
  else
    '(valid, st1) ← ValidateSyncCheckpoint fuel ix (hashCheckpoint this) st;
    if negb valid then Done (false, this, st1)
    else
      let '(written, st2) :=
        WriteSyncCheckpoint nd (hashCheckpoint this) st1 in
      if negb written then Done (false, this, st2)
      else
        Done (true, this,
              set_pending uint256_zero SetNull
                (set_checkpointMessage this st2)).

End Messages.

(** ** Peers, relay and the master operations *)

(** Peers are numbered; a null [CNode*] is [None]. *)
Abbreviation peer := nat (only parsing).

(** [AskForPendingSyncCheckpoint]: the result is the inventory request
    [pfrom->AskFor(CInv(MSG_BLOCK, hashPendingCheckpoint))] handed to the
    peer, if any. *)
Definition AskForPendingSyncCheckpoint (ix : BlockIndex) (pfrom : option peer)
    (st : State) : option (peer * uint256) :=
  match pfrom with
  | Some n =>
      if negb (hashPendingCheckpoint st =? uint256_zero)
         && negb (count ix (hashPendingCheckpoint st))
      then Some (n, hashPendingCheckpoint st)
      else None
  | None => None
  end.

(** Modelled from the spec: [IsNull] of [checkpointsync.h] is missing.  The
    null message is the one without a checkpoint hash. *)
Definition IsNull (m : CSyncCheckpoint) : bool :=
  hashCheckpoint m =? uint256_zero.

(** [BOOST_FOREACH(CNode* pnode, vNodes) m.RelayTo(pnode)]: the message is
    handed to every connected peer in turn. *)
Definition relay_to_all (vNodes : list peer) (m : CSyncCheckpoint)
  : list (peer * CSyncCheckpoint) :=
  map (fun n => (n, m)) vNodes.

(** [AcceptPendingSyncCheckpoint] together with the relay that ends its
    successful path:
<<
    if (!checkpointMessage.IsNull())
        BOOST_FOREACH(CNode* pnode, vNodes)
            checkpointMessage.RelayTo(pnode);
>> *)
Definition AcceptPendingSyncCheckpoint_relay (fuel : nat) (nd : Node)
    (ix : BlockIndex) (vNodes : list peer) (st : State)
  : outcome (bool * State * list (peer * CSyncCheckpoint)) :=
  '(accepted, st') ← AcceptPendingSyncCheckpoint fuel nd ix st;
  if negb accepted then Done (false, st', [])
  else if negb (IsNull (checkpointMessage st'))
  then Done (true, st', relay_to_all vNodes (checkpointMessage st'))
  else Done (true, st', []).

(** The stored checkpoint master public key and the two database calls that
    replace it.  [strPubKey] is what [ReadCheckpointPubKey] yields, [None]
    when the read fails; [keyWritten] and [synced] are the results of
    [WriteCheckpointPubKey] and [Sync].  The result carries the key the
    database holds afterwards: a key that was written reads back, synced or
    not. *)
Definition CheckCheckpointPubKey (nd : Node) (ix : BlockIndex)
    (keyWritten synced : bool) (strPubKey : option string) (st : State)
  : outcome (bool * option string * State) :=
  if bool_decide (strPubKey = Some (checkpointPubKey nd))
  then Done (true, strPubKey, st)
  else if negb keyWritten then Done (false, strPubKey, st)
  else if negb synced then Done (false, Some (checkpointPubKey nd), st)
  else
    '(reset, st') ← ResetSyncCheckpoint nd ix st;
    Done (reset, Some (checkpointPubKey nd), st').

(** What the master needs beside [Primitives]: decoding of the private key
    ([CBitcoinSecret::SetString] followed by [GetKey]), signing ([None] when
    [CKey::Sign] fails) and the serialisation of the unsigned checkpoint. *)
Class MasterKey := {
  DecodeSecret : string -> option (list byte);
  Sign : list byte -> uint256 -> option (list byte);
  Serialize : uint256 -> list byte
}.

Section Master.
Context `{Primitives} `{MasterKey}.

(** [SendSyncCheckpoint], with [strMasterPrivKey] as an argument; the result
    carries the messages relayed to the peers. *)
Definition SendSyncCheckpoint (fuel : nat) (nd : Node) (ix : BlockIndex)
    (vNodes : list peer) (strMasterPrivKey : string)
    (hashCheckpoint : uint256) (st : State)
  : outcome (bool * State * list (peer * CSyncCheckpoint)) :=
  let vchMsg := Serialize hashCheckpoint in
  if bool_decide (strMasterPrivKey = EmptyString) then Done (false, st, [])
  else
    match DecodeSecret strMasterPrivKey with
    | None => Done (false, st, [])
    | Some key =>
        match Sign key (Hash vchMsg) with
        | None => Done (false, st, [])
        | Some vchSig =>
            let checkpoint := mkMsg hashCheckpoint vchMsg vchSig in
            '(processed, checkpoint, st') ←
              ProcessSyncCheckpoint fuel nd ix checkpoint st;
            if negb processed then Done (false, st', [])
            else Done (true, st', relay_to_all vNodes checkpoint)
        end
    end.

End Master.

(** ** Well-formed block indexes

    The invariants the rest of the node maintains on the index: an entry's
    height is a non-negative [int], one more than its parent's; every parent
    link and every pointer of [mapBlockIndex] and [chainActive] leads to an
    entry; [mapBlockIndex] files an entry under its own hash; the canonical
    chain holds at position [i] a block of height [i] whose parent is the
    block at position [i - 1]. *)
Definition block_wfb (ix : BlockIndex) (b : CBlockIndex) : bool :=
  (0 <=? nHeight b) && (nHeight b <=? INT_MAX) &&
  match pprev b with
  | None => true
  | Some q =>
      match vBlocks ix !! q with
      | Some bq => nHeight bq =? nHeight b - 1
      | None => false
      end
  end.

Definition entry_wfb (ix : BlockIndex) (h : uint256) (p : ptr) : bool :=
  match vBlocks ix !! p with
  | Some b => phashBlock b =? h
  | None => false
  end.

Definition link_wfb (ix : BlockIndex) (i : nat) (p : ptr) : bool :=
  match vBlocks ix !! p with
  | Some b =>
      (nHeight b =? Z.of_nat i) &&
      match i with
      | O => true
      | S j => bool_decide (pprev b = chainActive ix !! j)
      end
  | None => false
  end.

Record index_wf (ix : BlockIndex) : Prop := {
  wf_block : forall p b, vBlocks ix !! p = Some b -> block_wfb ix b = true;
  wf_entry : forall h p, mapBlockIndex ix !! h = Some p -> entry_wfb ix h p = true;
  wf_chain : forall i p, chainActive ix !! i = Some p -> link_wfb ix i p = true
}.

Definition index_wfb (ix : BlockIndex) : bool :=
  forallb (fun kv => block_wfb ix kv.2) (map_to_list (vBlocks ix))
  && forallb (fun kv => entry_wfb ix kv.1 kv.2) (map_to_list (mapBlockIndex ix))
  && forallb (fun kv => link_wfb ix kv.1 kv.2) (imap pair (chainActive ix)).

(** The ancestors of a block: the blocks reached by following parent links. *)
Inductive ancestor (ix : BlockIndex) : ptr -> ptr -> Prop :=
| ancestor_self p : ancestor ix p p
| ancestor_step p b q r :
    vBlocks ix !! p = Some b -> pprev b = Some q ->
    ancestor ix q r -> ancestor ix p r.

(** [q] is the ancestor of [p] at height [h], with index entry [bq]. *)
Definition ancestor_at (ix : BlockIndex) (p : ptr) (h : Z) (q : ptr)
    (bq : CBlockIndex) : Prop :=
  ancestor ix p q /\ vBlocks ix !! q = Some bq /\ nHeight bq = h.

(** The chain of [p] ends above height [h]: some ancestor above [h] has no
    parent. *)
Definition chain_ends_above (ix : BlockIndex) (p : ptr) (h : Z) : Prop :=
  exists r br, ancestor ix p r /\ vBlocks ix !! r = Some br
               /\ pprev br = None /\ h < nHeight br.

(** The block filed under [hNew] lies strictly above the one filed under
    [hOld], and its ancestor at that lower height carries the hash [hOld]. *)
Definition descends_strictly (ix : BlockIndex) (hNew hOld : uint256) : Prop :=
  exists pn bn po bo q bq,
    mapBlockIndex ix !! hNew = Some pn /\ vBlocks ix !! pn = Some bn
    /\ mapBlockIndex ix !! hOld = Some po /\ vBlocks ix !! po = Some bo
    /\ nHeight bo < nHeight bn
    /\ ancestor_at ix pn (nHeight bo) q bq
    /\ phashBlock bq = hOld.

(** Every block of the canonical chain is filed in [mapBlockIndex] under its
    own hash. *)
Definition filed_wfb (ix : BlockIndex) (p : ptr) : bool :=
  match vBlocks ix !! p with
  | Some b => bool_decide (mapBlockIndex ix !! phashBlock b = Some p)
  | None => false
  end.

Definition chain_filed (ix : BlockIndex) : Prop :=
  forall p, p ∈ chainActive ix -> filed_wfb ix p = true.

Definition chain_filedb (ix : BlockIndex) : bool :=
  forallb (filed_wfb ix) (chainActive ix).

(** ** Statements of the specification measured against the code *)

(** The first case of C3 as the specification words it: whenever the active
    checkpoint is zero or absent from the index, the call returns true with
    genesis as the active checkpoint. *)
Definition reset_to_genesis_claim (fuel : nat) (nd : Node) (ix : BlockIndex)
    (hashBlock : uint256) (pindexPrev : ptr) (st : State) : Prop :=
  hashSyncCheckpoint st = uint256_zero
  \/ mapBlockIndex ix !! hashSyncCheckpoint st = None ->
  exists st', CheckSyncCheckpoint fuel nd ix hashBlock pindexPrev st
              = Done (true, st')
              /\ hashSyncCheckpoint st' = hashGenesisBlock nd.

(** Write-then-commit, as a relation between the states before and after an
    operation: the active checkpoint is the old one, or a value whose write
    succeeded and which the database now holds. *)
Definition committed_after_write (nd : Node) (st st' : State) : Prop :=
  hashSyncCheckpoint st' = hashSyncCheckpoint st
  \/ (txdbWrite nd (hashSyncCheckpoint st') = true
      /\ dbSyncCheckpoint st' = Some (hashSyncCheckpoint st')).

(** C6 as the specification words it: once the pending block is in the index and
    its re-validation succeeds, the pending hash becomes the active
    checkpoint and the pending slot is cleared. *)
Definition pending_promotion_claim (fuel : nat) (nd : Node) (ix : BlockIndex)
    (st : State) : Prop :=
  hashPendingCheckpoint st <> uint256_zero ->
  count ix (hashPendingCheckpoint st) = true ->
  forall st1,
    ValidateSyncCheckpoint fuel ix (hashPendingCheckpoint st) st
      = Done (true, st1) ->
    exists st',
      AcceptPendingSyncCheckpoint fuel nd ix st = Done (true, st')
      /\ hashSyncCheckpoint st' = hashPendingCheckpoint st
      /\ hashPendingCheckpoint st' = uint256_zero.

(** C7 as the specification words it: a message whose payload parses to a hash other
    than the one in its [hashCheckpoint] field fails [CheckSignature]. *)
Definition payload_mismatch_claim `{Primitives} (nd : Node)
    (this : CSyncCheckpoint) : Prop :=
  forall h,
    Unserialize (vchMsg this) = Some h -> h <> hashCheckpoint this ->
    exists this', CheckSignature nd this = Done (false, this').

(** C8 as the specification words it, for a positive configured depth [d]: the
    result is the hash of the canonical block at height [tip - d], or of the
    genesis block, the first of the canonical chain, when the tip is lower
    than [d]. *)
Definition auto_select_claim (fuel : nat) (nd : Node) (ix : BlockIndex)
  : Prop :=
  forall tip bTip,
    Tip ix = Some tip -> vBlocks ix !! tip = Some bTip ->
    0 < checkpointdepth nd ->
    exists p b,
      chainActive ix
        !! Z.to_nat (Z.max 0 (nHeight bTip - checkpointdepth nd)) = Some p
      /\ vBlocks ix !! p = Some b
      /\ AutoSelectSyncCheckpoint fuel nd ix = Done (phashBlock b).

(** ** A small index used to exercise the operations

    Genesis [1], the canonical chain [1; 2; 4], and a fork block [3] beside
    block [2]. *)
Module Sample.

Definition g : CBlockIndex := mkBlockIndex 100 None 0.
Definition a : CBlockIndex := mkBlockIndex 101 (Some 1%positive) 1.
Definition b : CBlockIndex := mkBlockIndex 102 (Some 1%positive) 1.
Definition c : CBlockIndex := mkBlockIndex 103 (Some 2%positive) 2.

Definition ix : BlockIndex :=
  mkIndex
    (<[1%positive := g]> (<[2%positive := a]> (<[3%positive := b]>
       (<[4%positive := c]> ∅))))
    (<[100 := 1%positive]> (<[101 := 2%positive]> (<[102 := 3%positive]>
       (<[103 := 4%positive]> ∅))))
    [1%positive; 2%positive; 4%positive].

(** The same index once a block of hash [104] has arrived on top of the
    canonical chain. *)
Definition d : CBlockIndex := mkBlockIndex 104 (Some 4%positive) 3.

Definition ix_next : BlockIndex :=
  mkIndex
    (<[5%positive := d]> (vBlocks ix))
    (<[104 := 5%positive]> (mapBlockIndex ix))
    [1%positive; 2%positive; 4%positive; 5%positive].

Definition nd (depth : Z) (writable : bool) : Node :=
  mkNode 100 "02ab" 100 depth (fun _ => writable).

Definition st0 (active : uint256) : State :=
  mkState active uint256_zero SetNull SetNull uint256_zero (Some active).

(** Toy primitives: the payload is one byte holding the hash, and the one
    signature that verifies is the single byte [01]. *)
Definition prims : Primitives := {|
  ParseHex := fun _ => [];
  Hash := fun l => Z.of_nat (length l);
  Verify := fun _ _ sig =>
    match sig with
    | [s] => Byte.eqb s x01
    | _ => false
    end;
  Unserialize := fun l =>
    match l with
    | [x] => Some (Z.of_N (Byte.to_N x))
    | _ => None
    end
|}.

(** A signed message naming the block of hash [103], one naming the fork
    block [102], one naming the unknown hash [104], and one with a bad
    signature. *)
Definition msg103 : CSyncCheckpoint := mkMsg 103 [x67] [x01].
Definition msg102 : CSyncCheckpoint := mkMsg 102 [x66] [x01].
Definition msg104 : CSyncCheckpoint := mkMsg 104 [x68] [x01].
Definition forged : CSyncCheckpoint := mkMsg 103 [x67] [x02].

(** The payload of this one says [103], its field [101]. *)
Definition mismatched : CSyncCheckpoint := mkMsg 101 [x67] [x01].

(** A toy master key: the private key string [key] decodes, every
    signature is the byte [01], and a hash is serialised as its one byte. *)
Definition master : MasterKey := {|
  DecodeSecret := fun s =>
    if bool_decide (s = "key"%string) then Some [x2a] else None;
  Sign := fun _ _ => Some [x01];
  Serialize := fun h =>
    match Byte.of_N (Z.to_N h) with
    | Some x => [x]
    | None => []
    end
|}.

(** A node whose latest hardened checkpoint is [hardened]. *)
Definition nd_hardened (hardened : uint256) (writable : bool) : Node :=
  mkNode 100 "02ab" hardened (-1) (fun _ => writable).

End Sample.

(** ** Facts about well-formed indexes *)

Lemma index_wfb_sound ix : index_wfb ix = true -> index_wf ix.
Proof.
  unfold index_wfb. rewrite !andb_true_iff, !forallb_forall.
  intros [[Hb He] Hc]. split.
  - intros p b Hp. apply (Hb (p, b)).
    apply list_elem_of_In. by apply elem_of_map_to_list.
  - intros h p Hp. apply (He (h, p)).
    apply list_elem_of_In. by apply elem_of_map_to_list.
  - intros i p Hp. apply (Hc (i, p)).
    apply list_elem_of_In, elem_of_lookup_imap. eauto.
Qed.

Lemma sample_ix_wf : index_wf Sample.ix.
Proof. apply index_wfb_sound. vm_compute. reflexivity. Qed.

Lemma sample_ix_next_wf : index_wf Sample.ix_next.
Proof. apply index_wfb_sound. vm_compute. reflexivity. Qed.

Section Index.
Variable ix : BlockIndex.
Hypothesis WF : index_wf ix.

Lemma height_range p b :
  vBlocks ix !! p = Some b -> 0 <= nHeight b <= INT_MAX.
Proof.
  intros Hp. pose proof (wf_block _ WF _ _ Hp) as Hb.
  unfold block_wfb in Hb. rewrite !andb_true_iff in Hb. lia.
Qed.

Lemma parent_entry p b q :
  vBlocks ix !! p = Some b -> pprev b = Some q ->
  exists bq, vBlocks ix !! q = Some bq /\ nHeight bq = nHeight b - 1.
Proof.
  intros Hp Hq. pose proof (wf_block _ WF _ _ Hp) as Hb.
  unfold block_wfb in Hb. rewrite Hq in Hb.
  apply andb_true_iff in Hb as [_ Hb].
  destruct (vBlocks ix !! q) as [bq|]; [|done].
  exists bq. split; [done | lia].
Qed.

Lemma map_entry h p :
  mapBlockIndex ix !! h = Some p ->
  exists b, vBlocks ix !! p = Some b /\ phashBlock b = h.
Proof.
  intros Hp. pose proof (wf_entry _ WF _ _ Hp) as He.
  unfold entry_wfb in He.
  destruct (vBlocks ix !! p) as [b|]; [|done].
  exists b. split; [done | lia].
Qed.

Lemma ancestor_entry p q b :
  ancestor ix p q -> vBlocks ix !! p = Some b ->
  exists bq, vBlocks ix !! q = Some bq /\ nHeight bq <= nHeight b.
Proof.
  intros Ha. revert b. induction Ha as [p|p b' q r Hp Hq Ha IH]; intros b Hb.
  - exists b. split; [done | lia].
  - rewrite Hp in Hb. injection Hb as ->.
    destruct (parent_entry _ _ _ Hp Hq) as (bq & Hbq & Hh).
    destruct (IH _ Hbq) as (br & Hbr & Hle).
    exists br. split; [done | lia].
Qed.

(** The ancestors of a block form a single line. *)
Lemma ancestor_line p q r :
  ancestor ix p q -> ancestor ix p r -> ancestor ix q r \/ ancestor ix r q.
Proof.
  intros Hq. revert r. induction Hq as [p|p b p' q Hp Hp' Hq IH]; intros r Hr.
  - by left.
  - inversion Hr as [|? b2 p2 ? Hp2 Hp2' Hr']; subst.
    + right. eapply ancestor_step; eauto.
    + rewrite Hp in Hp2. injection Hp2 as <-.
      rewrite Hp' in Hp2'. injection Hp2' as <-. by apply IH.
Qed.

Lemma ancestor_same_height p q bp bq :
  ancestor ix p q -> vBlocks ix !! p = Some bp -> vBlocks ix !! q = Some bq ->
  nHeight bq = nHeight bp -> q = p.
Proof.
  intros Ha Hp Hq Hh. destruct Ha as [p|p b p' q Hb Hp' Ha]; [done|].
  rewrite Hb in Hp. injection Hp as ->.
  destruct (parent_entry _ _ _ Hb Hp') as (bp' & Hbp' & Hh').
  destruct (ancestor_entry _ _ _ Ha Hbp') as (bq' & Hbq' & Hle).
  rewrite Hq in Hbq'. injection Hbq' as <-. lia.
Qed.

(** At most one ancestor at each height. *)
Lemma ancestor_at_unique p h q bq q' bq' :
  ancestor_at ix p h q bq -> ancestor_at ix p h q' bq' -> q = q' /\ bq = bq'.
Proof.
  intros (Ha & Hq & Hh) (Ha' & Hq' & Hh').
  assert (q = q') as <-.
  { destruct (ancestor_line _ _ _ Ha Ha') as [Hl|Hl].
    - symmetry. eapply ancestor_same_height; eauto. lia.
    - eapply ancestor_same_height; eauto. lia. }
  split; [done | congruence].
Qed.

(** A chain that ends above a height has no ancestor at that height. *)
Lemma chain_ends_no_ancestor p h q bq :
  chain_ends_above ix p h -> ancestor_at ix p h q bq -> False.
Proof.
  intros (r & br & Hr & Hbr & Hnone & Hlt) (Ha & Hq & Hh).
  destruct (ancestor_line _ _ _ Hr Ha) as [Hl|Hl].
  - destruct Hl as [|? b2 ? ? Hb2 Hp2 _]; [|congruence].
    rewrite Hbr in Hq. injection Hq as <-. lia.
  - destruct (ancestor_entry _ _ _ Hl Hq) as (br' & Hbr' & Hle).
    rewrite Hbr in Hbr'. injection Hbr' as <-. lia.
Qed.

(** The trace-back loop, started at or above the target height and given
    enough steps, stops at the ancestor at the target height, or fails when
    the parent links run out above it. *)
Lemma trace_back_spec fuel p b target :
  vBlocks ix !! p = Some b -> target <= nHeight b ->
  (Z.to_nat (nHeight b - target) <= fuel)%nat ->
  (exists q bq, ancestor_at ix p target q bq
                /\ trace_back fuel ix p target = Done (Some q))
  \/ (chain_ends_above ix p target /\ trace_back fuel ix p target = Done None).
Proof.
  revert p b. induction fuel as [|n IH]; intros p b Hp Hle Hfuel.
  - assert (nHeight b = target) as Heq by lia. left. exists p, b.
    split; [repeat split; [constructor | done | done]|].
    simpl. unfold deref. rewrite Hp. simpl.
    destruct (Z.ltb_spec target (nHeight b)); [lia | done].
  - simpl. unfold deref. rewrite Hp. simpl.
    destruct (Z.ltb_spec target (nHeight b)) as [Hlt|Hge].
    + destruct (pprev b) as [q|] eqn:Hq.
      * destruct (parent_entry _ _ _ Hp Hq) as (bq & Hbq & Hh).
        destruct (IH q bq Hbq ltac:(lia) ltac:(lia))
          as [(r & br & (Ha & Hr & Hhr) & Ht)|[(r & br & Ha & Hr) Ht]].
        -- left. exists r, br. split; [|done].
           repeat split; [|done|done]. eapply ancestor_step; eauto.
        -- right. split; [|done]. exists r, br.
           split; [eapply ancestor_step; eauto | done].
      * right. split; [|done]. exists p, b.
        repeat split; [constructor | done | done | done].
    + left. exists p, b. split; [|done].
      repeat split; [constructor | done | lia].
Qed.

End Index.

(** ** Lookups *)

Lemma count_Some ix h p : mapBlockIndex ix !! h = Some p -> count ix h = true.
Proof. intros Hp. unfold count. rewrite Hp. by apply bool_decide_eq_true. Qed.

Lemma count_None ix h : mapBlockIndex ix !! h = None -> count ix h = false.
Proof.
  intros Hp. unfold count. rewrite Hp.
  apply bool_decide_eq_false. by intros [? ?].
Qed.

Lemma at_hash_Some ix h p : mapBlockIndex ix !! h = Some p -> at_hash ix h = Done p.
Proof. intros Hp. unfold at_hash. by rewrite Hp. Qed.

Lemma deref_Some ix p b : vBlocks ix !! p = Some b -> deref ix p = Done b.
Proof. intros Hp. unfold deref. by rewrite Hp. Qed.

(** Resolve the index lookups of the goal with the hypotheses at hand. *)
Ltac resolve_index :=
  repeat first
    [ erewrite count_Some by eassumption
    | erewrite at_hash_Some by eassumption
    | erewrite deref_Some by eassumption
    | progress simpl ].

(** In a well-formed index [Contains] decides membership in the canonical
    chain. *)
Lemma chain_at_elem ix p b :
  index_wf ix -> vBlocks ix !! p = Some b ->
  chain_at ix (nHeight b) = Some p <-> p ∈ chainActive ix.
Proof.
  intros WF Hp. split.
  - unfold chain_at. case_match; [done|].
    intros Hl. apply list_elem_of_lookup. eauto.
  - intros Hin. apply list_elem_of_lookup in Hin as [i Hi].
    pose proof (wf_chain _ WF _ _ Hi) as Hl. unfold link_wfb in Hl.
    rewrite Hp in Hl. apply andb_true_iff in Hl as [Hh _].
    apply lookup_lt_Some in Hi as Hlt.
    unfold chain_at. replace (nHeight b) with (Z.of_nat i) by lia.
    destruct (Z.ltb_spec (Z.of_nat i) 0); [lia|].
    destruct (Z.leb_spec (Z.of_nat (length (chainActive ix))) (Z.of_nat i));
      [lia|].
    simpl. by rewrite Nat2Z.id.
Qed.

Lemma Contains_spec ix p b :
  index_wf ix -> vBlocks ix !! p = Some b ->
  Contains ix p = Done (bool_decide (p ∈ chainActive ix)).
Proof.
  intros WF Hp. unfold Contains. rewrite (deref_Some _ _ _ Hp). simpl.
  f_equal. apply bool_decide_ext. by apply chain_at_elem.
Qed.

(** Settle membership in a concrete list by evaluation. *)
Ltac decide_elem :=
  first [ apply (bool_decide_unpack _); vm_compute; exact I
        | apply (bool_decide_eq_false_1 _); vm_compute; reflexivity ].

(** ** ValidateSyncCheckpoint *)

(** C1: with the active checkpoint and the candidate both in the index and
    the candidate strictly higher, [ValidateSyncCheckpoint] follows the
    candidate's parent links down to the active checkpoint's height.  It
    returns true exactly when the ancestor at that height carries the active
    checkpoint hash; when the hash differs it stores the candidate in
    [hashInvalidCheckpoint], returns false and keeps the active checkpoint;
    when the parent links end above that height it returns false and changes
    nothing.  One of the two situations always holds, so the walk ends. *)
Theorem validate_descendant_walk fuel ix st cand ps bs pc bc :
  index_wf ix ->
  mapBlockIndex ix !! hashSyncCheckpoint st = Some ps ->
  vBlocks ix !! ps = Some bs ->
  mapBlockIndex ix !! cand = Some pc ->
  vBlocks ix !! pc = Some bc ->
  nHeight bs < nHeight bc ->
  (Z.to_nat (nHeight bc - nHeight bs) <= fuel)%nat ->
  (forall q bq, ancestor_at ix pc (nHeight bs) q bq ->
     ValidateSyncCheckpoint fuel ix cand st =
       Done (if decide (phashBlock bq = hashSyncCheckpoint st)
             then (true, st)
             else (false, set_hashInvalidCheckpoint cand st)))
  /\ (chain_ends_above ix pc (nHeight bs) ->
        ValidateSyncCheckpoint fuel ix cand st = Done (false, st))
  /\ ((exists q bq, ancestor_at ix pc (nHeight bs) q bq)
      \/ chain_ends_above ix pc (nHeight bs))
  /\ hashSyncCheckpoint (set_hashInvalidCheckpoint cand st)
       = hashSyncCheckpoint st
  /\ hashInvalidCheckpoint (set_hashInvalidCheckpoint cand st) = cand.
Proof.
  intros WF Hps Hbs Hpc Hbc Hlt Hfuel.
  assert (ValidateSyncCheckpoint fuel ix cand st =
            r' ← trace_back fuel ix pc (nHeight bs);
            match r' with
            | None => Done (false, st)
            | Some pindex =>
                b ← deref ix pindex;
                if negb (phashBlock b =? hashSyncCheckpoint st)
                then Done (false, set_hashInvalidCheckpoint cand st)
                else Done (true, st)
            end) as Hunfold.
  { unfold ValidateSyncCheckpoint.
    resolve_index.
    destruct (Z.leb_spec (nHeight bc) (nHeight bs)); [lia | done]. }
  destruct (trace_back_spec ix WF fuel pc bc (nHeight bs) Hbc ltac:(lia) Hfuel)
    as [(q & bq & Hanc & Ht)|[Hends Ht]].
  - split; [|split; [|split; [eauto | done]]].
    + intros q' bq' Hanc'.
      destruct (ancestor_at_unique ix WF _ _ _ _ _ _ Hanc Hanc') as [<- <-].
      rewrite Hunfold, Ht. simpl.
      destruct Hanc as (_ & Hq & _). rewrite (deref_Some _ _ _ Hq). simpl.
      destruct (Z.eqb_spec (phashBlock bq) (hashSyncCheckpoint st));
        by case_decide.
    + intros Hends. destruct (chain_ends_no_ancestor ix WF _ _ _ _ Hends Hanc).
  - split; [|split; [|split; [eauto | done]]].
    + intros q bq Hanc.
      destruct (chain_ends_no_ancestor ix WF _ _ _ _ Hends Hanc).
    + intros _. by rewrite Hunfold, Ht.
Qed.

Lemma validate_descendant_walk_witness :
  ValidateSyncCheckpoint 2 Sample.ix 103 (Sample.st0 100)
    = Done (true, Sample.st0 100)
  /\ ValidateSyncCheckpoint 2 Sample.ix 103 (Sample.st0 102)
    = Done (false, set_hashInvalidCheckpoint 103 (Sample.st0 102)).
Proof.
  assert (ancestor_at Sample.ix 4%positive 0 1%positive Sample.g) as Hg.
  { repeat split.
    eapply (ancestor_step _ _ Sample.c); [reflexivity | reflexivity |].
    eapply (ancestor_step _ _ Sample.a); [reflexivity | reflexivity |].
    constructor. }
  assert (ancestor_at Sample.ix 4%positive 1 2%positive Sample.a) as Ha.
  { repeat split.
    eapply (ancestor_step _ _ Sample.c); [reflexivity | reflexivity |].
    constructor. }
  split.
  - apply (proj1 (validate_descendant_walk 2 Sample.ix (Sample.st0 100) 103
             1%positive Sample.g 4%positive Sample.c
             sample_ix_wf eq_refl eq_refl eq_refl eq_refl
             eq_refl ltac:(vm_compute; lia)) 1%positive Sample.g Hg).
  - apply (proj1 (validate_descendant_walk 2 Sample.ix (Sample.st0 102) 103
             3%positive Sample.b 4%positive Sample.c
             sample_ix_wf eq_refl eq_refl eq_refl eq_refl
             eq_refl ltac:(vm_compute; lia)) 2%positive Sample.a Ha).
Defined.

(** C2: with the candidate in the index at a height not above the active
    checkpoint's, [ValidateSyncCheckpoint] returns false in every case: as a
    pure ignore, the state untouched, when the candidate's block is on the
    canonical chain; as a conflict, the candidate stored in
    [hashInvalidCheckpoint], when it is not. *)
Theorem validate_older_checkpoint fuel ix st cand ps bs pc bc :
  index_wf ix ->
  mapBlockIndex ix !! hashSyncCheckpoint st = Some ps ->
  vBlocks ix !! ps = Some bs ->
  mapBlockIndex ix !! cand = Some pc ->
  vBlocks ix !! pc = Some bc ->
  nHeight bc <= nHeight bs ->
  (pc ∈ chainActive ix ->
     ValidateSyncCheckpoint fuel ix cand st = Done (false, st))
  /\ (pc ∉ chainActive ix ->
        ValidateSyncCheckpoint fuel ix cand st
          = Done (false, set_hashInvalidCheckpoint cand st)
        /\ hashInvalidCheckpoint (set_hashInvalidCheckpoint cand st) = cand).
Proof.
  intros WF Hps Hbs Hpc Hbc Hle.
  assert (ValidateSyncCheckpoint fuel ix cand st =
            Done (false, if bool_decide (pc ∈ chainActive ix) then st
                         else set_hashInvalidCheckpoint cand st)) as ->.
  { unfold ValidateSyncCheckpoint.
    resolve_index.
    destruct (Z.leb_spec (nHeight bc) (nHeight bs)); [|lia].
    rewrite (Contains_spec _ _ _ WF Hbc). simpl.
    by destruct (bool_decide (pc ∈ chainActive ix)). }
  split.
  - intros Hin. by rewrite bool_decide_eq_true_2.
  - intros Hout. by rewrite bool_decide_eq_false_2.
Qed.

Lemma validate_older_checkpoint_witness :
  ValidateSyncCheckpoint 0 Sample.ix 101 (Sample.st0 103)
    = Done (false, Sample.st0 103)
  /\ ValidateSyncCheckpoint 0 Sample.ix 102 (Sample.st0 103)
    = Done (false, set_hashInvalidCheckpoint 102 (Sample.st0 103)).
Proof.
  split.
  - apply (proj1 (validate_older_checkpoint 0 Sample.ix (Sample.st0 103) 101
             4%positive Sample.c 2%positive Sample.a
             sample_ix_wf eq_refl eq_refl eq_refl eq_refl
             ltac:(vm_compute; discriminate))).
    decide_elem.
  - apply (proj2 (validate_older_checkpoint 0 Sample.ix (Sample.st0 103) 102
             4%positive Sample.c 3%positive Sample.b
             sample_ix_wf eq_refl eq_refl eq_refl eq_refl
             ltac:(vm_compute; discriminate))).
    decide_elem.
Defined.

(** ** CheckSyncCheckpoint *)

Lemma int_add_exact a b :
  INT_MIN <= a + b <= INT_MAX -> int_add a b = a + b.
Proof.
  unfold int_add, to_int, INT_MIN, INT_MAX. intros Hr.
  rewrite Z.mod_small; lia.
Qed.

(** The height computed for the new block is the parent's plus one, unless
    the parent sits at [INT_MAX], where the sum wraps to [INT_MIN]. *)
Lemma new_height_cases h :
  0 <= h <= INT_MAX ->
  (h < INT_MAX /\ int_add h 1 = h + 1) \/ (h = INT_MAX /\ int_add h 1 = INT_MIN).
Proof.
  intros Hr. destruct (decide (h = INT_MAX)) as [->|Hne].
  - right. split; [done | reflexivity].
  - left. split; [lia|]. apply int_add_exact. unfold INT_MIN, INT_MAX in *. lia.
Qed.

(** C3, with the reset stated for a successful write: for a block hash and
    a parent entry, the new height being the parent's plus one as the code
    computes it.  With the active checkpoint zero or absent from the index
    and the write of the genesis hash succeeding, [CheckSyncCheckpoint]
    makes genesis the active checkpoint and returns true.  Otherwise: above
    the checkpoint's height it returns true exactly when the parent's
    ancestor at the checkpoint's height exists and is on the canonical
    chain; at the checkpoint's height, exactly when the hash is the
    checkpoint hash; below it, exactly when the hash is in the index.  The
    state is untouched in these three cases. *)
Theorem check_sync_checkpoint_cases fuel nd ix st hashBlock pindexPrev bPrev :
  index_wf ix ->
  vBlocks ix !! pindexPrev = Some bPrev ->
  (Z.to_nat (nHeight bPrev) <= fuel)%nat ->
  let run := CheckSyncCheckpoint fuel nd ix hashBlock pindexPrev st in
  let newHeight := int_add (nHeight bPrev) 1 in
  (hashSyncCheckpoint st = uint256_zero
   \/ mapBlockIndex ix !! hashSyncCheckpoint st = None ->
   txdbWrite nd (hashGenesisBlock nd) = true ->
   run = Done (true, commit_checkpoint (hashGenesisBlock nd) st)
   /\ hashSyncCheckpoint (commit_checkpoint (hashGenesisBlock nd) st)
      = hashGenesisBlock nd)
  /\ (forall ps bs,
        hashSyncCheckpoint st <> uint256_zero ->
        mapBlockIndex ix !! hashSyncCheckpoint st = Some ps ->
        vBlocks ix !! ps = Some bs ->
        (nHeight bs < newHeight ->
           (forall q bq, ancestor_at ix pindexPrev (nHeight bs) q bq ->
              run = Done (bool_decide (q ∈ chainActive ix), st))
           /\ (chain_ends_above ix pindexPrev (nHeight bs) ->
                 run = Done (false, st))
           /\ ((exists q bq, ancestor_at ix pindexPrev (nHeight bs) q bq)
               \/ chain_ends_above ix pindexPrev (nHeight bs)))
        /\ (newHeight = nHeight bs ->
              run = Done (bool_decide (hashBlock = hashSyncCheckpoint st), st))
        /\ (newHeight < nHeight bs ->
              run = Done (count ix hashBlock, st))).
Proof.
  intros WF Hprev Hfuel run newHeight. subst run. split.
  - intros Hunset Hw. split; [|done].
    unfold CheckSyncCheckpoint. resolve_index.
    assert ((hashSyncCheckpoint st =? uint256_zero)
            || negb (count ix (hashSyncCheckpoint st)) = true) as ->.
    { destruct Hunset as [->|Hnone]; [done|].
      rewrite (count_None _ _ Hnone). apply orb_true_r. }
    unfold WriteSyncCheckpoint. by rewrite Hw.
  - intros ps bs Hnz Hps Hbs.
    pose proof (height_range ix WF _ _ Hprev) as Hrp.
    pose proof (height_range ix WF _ _ Hbs) as Hrs.
    assert (CheckSyncCheckpoint fuel nd ix hashBlock pindexPrev st =
      let tail :=
        if (newHeight =? nHeight bs)
           && negb (hashBlock =? hashSyncCheckpoint st)
        then false
        else if (newHeight <? nHeight bs) && negb (count ix hashBlock)
        then false else true in
      if nHeight bs <? newHeight then
        r ← trace_back fuel ix pindexPrev (nHeight bs);
        match r with
        | None => Done (false, st)
        | Some pindex =>
            onChain ← Contains ix pindex;
            if negb onChain then Done (false, st) else Done (tail, st)
        end
      else Done (tail, st)) as ->.
    { unfold CheckSyncCheckpoint. resolve_index.
      destruct (Z.eqb_spec (hashSyncCheckpoint st) uint256_zero); [done|].
      by resolve_index. }
    simpl. split; [|split].
    + intros Hlt.
      destruct (Z.ltb_spec (nHeight bs) newHeight); [|lia].
      destruct (Z.eqb_spec newHeight (nHeight bs)); [lia|].
      destruct (Z.ltb_spec newHeight (nHeight bs)); [lia|]. simpl.
      assert (nHeight bs <= nHeight bPrev) as Hle.
      { subst newHeight.
        destruct (new_height_cases _ Hrp) as [[_ Heq]|[_ Heq]];
          rewrite Heq in Hlt; unfold INT_MIN in *; lia. }
      destruct (trace_back_spec ix WF fuel _ _ (nHeight bs) Hprev Hle
                  ltac:(lia)) as [(q & bq & Hanc & Ht)|[Hends Ht]].
      * split; [|split; [|eauto]].
        -- intros q' bq' Hanc'.
           destruct (ancestor_at_unique ix WF _ _ _ _ _ _ Hanc Hanc')
             as [<- <-].
           rewrite Ht. simpl. destruct Hanc as (_ & Hq & _).
           rewrite (Contains_spec _ _ _ WF Hq). simpl.
           by destruct (bool_decide (q ∈ chainActive ix)).
        -- intros Hends.
           destruct (chain_ends_no_ancestor ix WF _ _ _ _ Hends Hanc).
      * split; [|split; [|eauto]].
        -- intros q bq Hanc.
           destruct (chain_ends_no_ancestor ix WF _ _ _ _ Hends Hanc).
        -- intros _. by rewrite Ht.
    + intros Heq.
      destruct (Z.ltb_spec (nHeight bs) newHeight); [lia|].
      destruct (Z.eqb_spec newHeight (nHeight bs)); [|lia]. simpl.
      destruct (Z.eqb_spec hashBlock (hashSyncCheckpoint st)) as [He|He].
      * simpl. destruct (Z.ltb_spec newHeight (nHeight bs)); [lia|].
        simpl. by rewrite bool_decide_eq_true_2.
      * simpl. by rewrite bool_decide_eq_false_2.
    + intros Hlt.
      destruct (Z.ltb_spec (nHeight bs) newHeight); [lia|].
      destruct (Z.eqb_spec newHeight (nHeight bs)); [lia|].
      destruct (Z.ltb_spec newHeight (nHeight bs)); [|lia]. simpl.
      by destruct (count ix hashBlock).
Qed.

Lemma check_sync_checkpoint_cases_witness :
  CheckSyncCheckpoint 2 (Sample.nd (-1) true) Sample.ix 104 4%positive
      (Sample.st0 uint256_zero)
    = Done (true, commit_checkpoint 100 (Sample.st0 uint256_zero))
  /\ CheckSyncCheckpoint 2 (Sample.nd (-1) true) Sample.ix 104 4%positive
       (Sample.st0 101)
     = Done (true, Sample.st0 101)
  /\ CheckSyncCheckpoint 2 (Sample.nd (-1) true) Sample.ix 104 3%positive
       (Sample.st0 101)
     = Done (false, Sample.st0 101).
Proof.
  assert (ancestor_at Sample.ix 4%positive 1 2%positive Sample.a) as Ha.
  { repeat split.
    eapply (ancestor_step _ _ Sample.c); [reflexivity | reflexivity |].
    constructor. }
  assert (ancestor_at Sample.ix 3%positive 1 3%positive Sample.b) as Hb.
  { repeat split. constructor. }
  split; [|split].
  - apply (proj1 (check_sync_checkpoint_cases 2 (Sample.nd (-1) true)
             Sample.ix (Sample.st0 uint256_zero) 104 4%positive Sample.c
             sample_ix_wf eq_refl ltac:(vm_compute; lia)));
      [by left | reflexivity].
  - pose proof (proj2 (check_sync_checkpoint_cases 2 (Sample.nd (-1) true)
             Sample.ix (Sample.st0 101) 104 4%positive Sample.c
             sample_ix_wf eq_refl ltac:(vm_compute; lia))
             2%positive Sample.a ltac:(discriminate) eq_refl eq_refl)
      as [Habove _].
    destruct (Habove eq_refl) as [Hrun _].
    apply (Hrun 2%positive Sample.a Ha).
  - pose proof (proj2 (check_sync_checkpoint_cases 2 (Sample.nd (-1) true)
             Sample.ix (Sample.st0 101) 104 3%positive Sample.b
             sample_ix_wf eq_refl ltac:(vm_compute; lia))
             2%positive Sample.a ltac:(discriminate) eq_refl eq_refl)
      as [Habove _].
    destruct (Habove eq_refl) as [Hrun _].
    apply (Hrun 3%positive Sample.b Hb).
Defined.

(** On the well-formed sample index, with the database refusing the write,
    the call still returns true but the active checkpoint stays zero. *)
Lemma check_sync_reset_write_refused :
  ~ reset_to_genesis_claim 2 (Sample.nd (-1) false) Sample.ix 104 4%positive
      (Sample.st0 uint256_zero).
Proof.
  intros Hclaim. destruct (Hclaim (or_introl eq_refl)) as (st' & Hrun & Hg).
  vm_compute in Hrun. injection Hrun as <-. discriminate Hg.
Qed.

(** ** The effect of validation on the state *)

(** Break an operation of the model into its branches. *)
Ltac split_branches H :=
  unfold mbind, outcome_bind, at_hash, deref, Contains in H;
  repeat (case_match; simpl in H; simplify_eq).

(** [ValidateSyncCheckpoint] touches [hashInvalidCheckpoint] at most, and
    nothing when it returns true. *)
Lemma validate_frame fuel ix h st b st' :
  ValidateSyncCheckpoint fuel ix h st = Done (b, st') ->
  (b = true /\ st' = st)
  \/ (b = false /\ (st' = st \/ st' = set_hashInvalidCheckpoint h st)).
Proof.
  unfold ValidateSyncCheckpoint. intros Hv.
  split_branches Hv; eauto.
Qed.

Lemma validate_keeps_active fuel ix h st b st' :
  ValidateSyncCheckpoint fuel ix h st = Done (b, st') ->
  hashSyncCheckpoint st' = hashSyncCheckpoint st
  /\ hashPendingCheckpoint st' = hashPendingCheckpoint st
  /\ checkpointMessagePending st' = checkpointMessagePending st
  /\ dbSyncCheckpoint st' = dbSyncCheckpoint st.
Proof.
  intros Hv.
  destruct (validate_frame _ _ _ _ _ _ Hv) as [[_ ->]|[_ [->| ->]]]; done.
Qed.

Lemma write_committed nd h st b st' :
  WriteSyncCheckpoint nd h st = (b, st') -> committed_after_write nd st st'.
Proof.
  unfold WriteSyncCheckpoint, committed_after_write.
  destruct (txdbWrite nd h) eqn:Hw; simpl; intros [= <- <-]; [right | by left].
  by simpl.
Qed.

(** ** Signature failures and write-then-commit *)

Section Processing.
Context `{Primitives}.

(** What an unverified message does: nothing. *)
Lemma process_unsigned fuel nd ix this st :
  signature_verifies nd this = false ->
  ProcessSyncCheckpoint fuel nd ix this st = Done (false, this, st).
Proof.
  intros Hsig. unfold ProcessSyncCheckpoint, CheckSignature.
  by rewrite Hsig.
Qed.

(** C4: a message whose signature does not verify under the master public
    key makes [ProcessSyncCheckpoint] return false with every checkpoint
    variable as it was: the active checkpoint, the pending hash and message,
    the invalid-checkpoint marker, the accepted message and the database
    value. *)
Theorem process_bad_signature fuel nd ix this st :
  signature_verifies nd this = false ->
  ProcessSyncCheckpoint fuel nd ix this st = Done (false, this, st).
Proof.
  intros Hsig. unfold ProcessSyncCheckpoint.
  assert (CheckSignature nd this = Done (false, this)) as ->.
  { unfold CheckSignature. by rewrite Hsig. }
  reflexivity.
Qed.

Lemma process_committed fuel nd ix this st b this' st' :
  ProcessSyncCheckpoint fuel nd ix this st = Done (b, this', st') ->
  committed_after_write nd st st'.
Proof.
  unfold ProcessSyncCheckpoint, CheckSignature. intros Hp.
  unfold mbind, outcome_bind in Hp.
  destruct (negb (signature_verifies nd this)); simpl in Hp.
  { injection Hp as <- <- <-. by left. }
  destruct (Unserialize (vchMsg this)) as [h|]; [|done]. simpl in Hp.
  destruct (negb (count ix h)).
  { injection Hp as <- <- <-. by left. }
  destruct (ValidateSyncCheckpoint fuel ix h st) as [[valid st1]|] eqn:Hv;
    [|done].
  destruct (validate_keeps_active _ _ _ _ _ _ Hv) as (Ha & _).
  destruct valid; simpl in Hp.
  - destruct (WriteSyncCheckpoint nd h st1) as [written st2] eqn:Hw.
    pose proof (write_committed _ _ _ _ _ Hw) as Hc.
    unfold committed_after_write in *. rewrite <- Ha.
    destruct written; simpl in Hp; injection Hp as <- <- <-; done.
  - injection Hp as <- <- <-. by left.
Qed.

Lemma accept_committed fuel nd ix st b st' :
  AcceptPendingSyncCheckpoint fuel nd ix st = Done (b, st') ->
  committed_after_write nd st st'.
Proof.
  unfold AcceptPendingSyncCheckpoint. intros Hp.
  destruct (negb _).
  { injection Hp as <- <-. by left. }
  unfold mbind, outcome_bind in Hp.
  destruct (ValidateSyncCheckpoint fuel ix (hashPendingCheckpoint st) st)
    as [[valid st1]|] eqn:Hv; [|done].
  destruct (validate_keeps_active _ _ _ _ _ _ Hv) as (Ha & _).
  destruct valid; simpl in Hp.
  - destruct (at_hash ix (hashPendingCheckpoint st1)) as [p|]; [|done].
    destruct (Contains ix p) as [[|]|]; simpl in Hp; [| |done].
    + destruct (WriteSyncCheckpoint nd (hashPendingCheckpoint st1) st1)
        as [written st2] eqn:Hw.
      pose proof (write_committed _ _ _ _ _ Hw) as Hc.
      unfold committed_after_write in *. rewrite <- Ha.
      destruct written; simpl in Hp; injection Hp as <- <-; done.
    + injection Hp as <- <-. by left.
  - injection Hp as <- <-. by left.
Qed.

End Processing.

Lemma check_committed fuel nd ix hashBlock pindexPrev st b st' :
  CheckSyncCheckpoint fuel nd ix hashBlock pindexPrev st = Done (b, st') ->
  committed_after_write nd st st'.
Proof.
  unfold CheckSyncCheckpoint. intros Hp.
  unfold mbind, outcome_bind in Hp.
  destruct (deref ix pindexPrev) as [bPrev|]; [|done].
  destruct (_ || _).
  { injection Hp as <- <-.
    eapply write_committed. apply surjective_pairing. }
  destruct (at_hash ix (hashSyncCheckpoint st)) as [ps|]; [|done].
  destruct (deref ix ps) as [bs|]; [|done].
  destruct (_ <? _).
  - destruct (trace_back _ _ _ _) as [[q|]|]; [| |done].
    + destruct (Contains ix q) as [[|]|]; simpl in Hp; [| |done];
        injection Hp as <- <-; by left.
    + injection Hp as <- <-. by left.
  - injection Hp as <- <-. by left.
Qed.

Lemma reset_committed nd ix st b st' :
  ResetSyncCheckpoint nd ix st = Done (b, st') ->
  committed_after_write nd st st'.
Proof.
  unfold ResetSyncCheckpoint. intros Hp.
  unfold mbind, outcome_bind in Hp.
  set (st1 := if negb (count ix (hashLatestHardened nd))
              then set_pending (hashLatestHardened nd) SetNull st
              else st) in *.
  assert (hashSyncCheckpoint st1 = hashSyncCheckpoint st) as Ha.
  { subst st1. by destruct (negb _). }
  destruct (if count ix (hashLatestHardened nd) then _ else _)
    as [onChain|]; [|done].
  injection Hp as Hw. apply write_committed in Hw.
  unfold committed_after_write in *. by rewrite <- Ha.
Qed.

(** C5: when the database write of a hash fails, [WriteSyncCheckpoint]
    returns false with the state, the active checkpoint in particular, as it
    was; when it succeeds the hash is in the database and is the active
    checkpoint.  Every operation that moves the active checkpoint goes
    through it: after [ProcessSyncCheckpoint],
    [AcceptPendingSyncCheckpoint], [CheckSyncCheckpoint] or
    [ResetSyncCheckpoint] the active checkpoint is the old one, or one whose
    write succeeded and which the database holds. *)
Theorem write_then_commit `{Primitives} fuel nd ix :
  (forall h st,
     txdbWrite nd h = false -> WriteSyncCheckpoint nd h st = (false, st))
  /\ (forall h st,
        txdbWrite nd h = true ->
        exists st', WriteSyncCheckpoint nd h st = (true, st')
                    /\ dbSyncCheckpoint st' = Some h
                    /\ hashSyncCheckpoint st' = h)
  /\ (forall this st b this' st',
        ProcessSyncCheckpoint fuel nd ix this st = Done (b, this', st') ->
        committed_after_write nd st st')
  /\ (forall st b st',
        AcceptPendingSyncCheckpoint fuel nd ix st = Done (b, st') ->
        committed_after_write nd st st')
  /\ (forall hashBlock pindexPrev st b st',
        CheckSyncCheckpoint fuel nd ix hashBlock pindexPrev st = Done (b, st') ->
        committed_after_write nd st st')
  /\ (forall st b st',
        ResetSyncCheckpoint nd ix st = Done (b, st') ->
        committed_after_write nd st st').
Proof.
  repeat split.
  - intros h st Hw. unfold WriteSyncCheckpoint. by rewrite Hw.
  - intros h st Hw. unfold WriteSyncCheckpoint. rewrite Hw. simpl. eauto.
  - intros. by eapply process_committed.
  - intros. by eapply accept_committed.
  - intros. by eapply check_committed.
  - intros. by eapply reset_committed.
Qed.

Lemma process_bad_signature_witness :
  @ProcessSyncCheckpoint Sample.prims 2 (Sample.nd (-1) true) Sample.ix
      Sample.forged (Sample.st0 100)
    = Done (false, Sample.forged, Sample.st0 100).
Proof.
  apply (@process_bad_signature Sample.prims 2 (Sample.nd (-1) true)
           Sample.ix Sample.forged (Sample.st0 100)).
  reflexivity.
Defined.

Lemma write_then_commit_witness :
  WriteSyncCheckpoint (Sample.nd (-1) false) 103 (Sample.st0 100)
    = (false, Sample.st0 100)
  /\ committed_after_write (Sample.nd (-1) true) (Sample.st0 100)
       (mkState 103 uint256_zero (mkMsg 103 [x67] [x01]) SetNull uint256_zero
          (Some 103)).
Proof.
  split.
  - apply (proj1 (@write_then_commit Sample.prims 2 (Sample.nd (-1) false)
                    Sample.ix) 103 (Sample.st0 100)).
    reflexivity.
  - apply (proj1 (proj2 (proj2 (@write_then_commit Sample.prims 2
                    (Sample.nd (-1) true) Sample.ix)))
             Sample.msg103 (Sample.st0 100) true (mkMsg 103 [x67] [x01])).
    reflexivity.
Defined.

(** ** Pending checkpoints and the two acceptance paths *)

Section Acceptance.
Context `{Primitives}.

(** What a signed message does once [CheckSignature] has passed: the hash
    acted upon is the one parsed from the payload. *)
Lemma process_signed fuel nd ix this st h :
  signature_verifies nd this = true ->
  Unserialize (vchMsg this) = Some h ->
  ProcessSyncCheckpoint fuel nd ix this st =
    let this' := mkMsg h (vchMsg this) (vchSig this) in
    if negb (count ix h) then Done (false, this', set_pending h this' st)
    else
      '(valid, st1) ← ValidateSyncCheckpoint fuel ix h st;
      if negb valid then Done (false, this', st1)
      else
        let '(written, st2) := WriteSyncCheckpoint nd h st1 in
        if negb written then Done (false, this', st2)
        else Done (true, this',
                   set_pending uint256_zero SetNull
                     (set_checkpointMessage this' st2)).
Proof.
  intros Hsig Hpay. unfold ProcessSyncCheckpoint, CheckSignature.
  by rewrite Hsig, Hpay.
Qed.

(** What [AcceptPendingSyncCheckpoint] does with a pending checkpoint whose
    block is in the index. *)
Lemma accept_present fuel nd ix st p b :
  index_wf ix ->
  hashPendingCheckpoint st <> uint256_zero ->
  mapBlockIndex ix !! hashPendingCheckpoint st = Some p ->
  vBlocks ix !! p = Some b ->
  AcceptPendingSyncCheckpoint fuel nd ix st =
    '(valid, st1) ← ValidateSyncCheckpoint fuel ix (hashPendingCheckpoint st) st;
    if negb valid then Done (false, set_pending uint256_zero SetNull st1)
    else if negb (bool_decide (p ∈ chainActive ix)) then Done (false, st)
    else if negb (txdbWrite nd (hashPendingCheckpoint st)) then Done (false, st)
    else Done (true,
               mkState (hashPendingCheckpoint st) uint256_zero
                 (checkpointMessagePending st) SetNull
                 (hashInvalidCheckpoint st)
                 (Some (hashPendingCheckpoint st))).
Proof.
  intros WF Hnz Hp Hb. unfold AcceptPendingSyncCheckpoint.
  rewrite (count_Some _ _ _ Hp).
  destruct (Z.eqb_spec (hashPendingCheckpoint st) uint256_zero); [done|].
  simpl.
  destruct (ValidateSyncCheckpoint fuel ix (hashPendingCheckpoint st) st)
    as [[valid st1]|] eqn:Hv; [|done].
  simpl. destruct valid; [|done]. simpl.
  destruct (validate_frame _ _ _ _ _ _ Hv) as [[_ ->]|[? _]]; [|done].
  rewrite (at_hash_Some _ _ _ Hp). simpl.
  rewrite (Contains_spec _ _ _ WF Hb). simpl.
  destruct (bool_decide (p ∈ chainActive ix)); [|done]. simpl.
  unfold WriteSyncCheckpoint.
  by destruct (txdbWrite nd (hashPendingCheckpoint st)).
Qed.

End Acceptance.

(** C6, with the conditions of the promotion spelled out: a signed message
    naming a block absent from the index is stored, hash and message, in the
    pending slot, [ProcessSyncCheckpoint] returning false with the active
    checkpoint as it was.  Later, with the pending block in the index [ix'],
    [AcceptPendingSyncCheckpoint] runs [ValidateSyncCheckpoint] again: when
    it succeeds, the block is on the canonical chain and the write succeeds,
    the pending hash becomes the active checkpoint and the pending slot is
    cleared; when it fails, the pending slot is cleared and the active
    checkpoint stays. *)
Theorem pending_stored_then_promoted `{Primitives} fuel nd ix ix' :
  (forall this h st,
     signature_verifies nd this = true ->
     Unserialize (vchMsg this) = Some h ->
     mapBlockIndex ix !! h = None ->
     exists this' st',
       ProcessSyncCheckpoint fuel nd ix this st = Done (false, this', st')
       /\ this' = mkMsg h (vchMsg this) (vchSig this)
       /\ hashPendingCheckpoint st' = h
       /\ checkpointMessagePending st' = this'
       /\ hashSyncCheckpoint st' = hashSyncCheckpoint st
       /\ dbSyncCheckpoint st' = dbSyncCheckpoint st)
  /\ (forall st p b,
        index_wf ix' ->
        hashPendingCheckpoint st <> uint256_zero ->
        mapBlockIndex ix' !! hashPendingCheckpoint st = Some p ->
        vBlocks ix' !! p = Some b ->
        (forall st1,
           ValidateSyncCheckpoint fuel ix' (hashPendingCheckpoint st) st
             = Done (true, st1) ->
           p ∈ chainActive ix' ->
           txdbWrite nd (hashPendingCheckpoint st) = true ->
           exists st',
             AcceptPendingSyncCheckpoint fuel nd ix' st = Done (true, st')
             /\ hashSyncCheckpoint st' = hashPendingCheckpoint st
             /\ dbSyncCheckpoint st' = Some (hashPendingCheckpoint st)
             /\ checkpointMessage st' = checkpointMessagePending st
             /\ hashPendingCheckpoint st' = uint256_zero
             /\ checkpointMessagePending st' = SetNull)
        /\ (forall st1,
              ValidateSyncCheckpoint fuel ix' (hashPendingCheckpoint st) st
                = Done (false, st1) ->
              exists st',
                AcceptPendingSyncCheckpoint fuel nd ix' st = Done (false, st')
                /\ hashPendingCheckpoint st' = uint256_zero
                /\ checkpointMessagePending st' = SetNull
                /\ hashSyncCheckpoint st' = hashSyncCheckpoint st
                /\ dbSyncCheckpoint st' = dbSyncCheckpoint st)).
Proof.
  split.
  - intros this h st Hsig Hpay Hnone.
    rewrite (process_signed _ _ _ _ _ _ Hsig Hpay). simpl.
    rewrite (count_None _ _ Hnone). simpl. eauto 10.
  - intros st p b WF Hnz Hp Hb.
    rewrite (accept_present _ _ _ _ _ _ WF Hnz Hp Hb). split.
    + intros st1 Hv Hin Hw. rewrite Hv. simpl.
      rewrite (bool_decide_eq_true_2 _ Hin), Hw. simpl. eauto 10.
    + intros st1 Hv. rewrite Hv. simpl.
      destruct (validate_keeps_active _ _ _ _ _ _ Hv) as (Ha & _ & _ & Hd).
      eauto 10.
Qed.

Lemma pending_stored_then_promoted_witness :
  exists st1 st2,
    @ProcessSyncCheckpoint Sample.prims 3 (Sample.nd (-1) true) Sample.ix
        Sample.msg104 (Sample.st0 100)
      = Done (false, Sample.msg104, st1)
    /\ hashPendingCheckpoint st1 = 104
    /\ hashSyncCheckpoint st1 = 100
    /\ AcceptPendingSyncCheckpoint 3 (Sample.nd (-1) true) Sample.ix_next st1
       = Done (true, st2)
    /\ hashSyncCheckpoint st2 = 104
    /\ hashPendingCheckpoint st2 = uint256_zero.
Proof.
  pose proof (@pending_stored_then_promoted Sample.prims 3
                (Sample.nd (-1) true) Sample.ix Sample.ix_next)
    as [Hstore Hpromote].
  destruct (Hstore Sample.msg104 104 (Sample.st0 100) eq_refl eq_refl eq_refl)
    as (this' & st1 & Hrun & -> & Hpend & Hmsg & Hact & Hdb).
  exists st1.
  assert (st1 = set_pending 104 Sample.msg104 (Sample.st0 100)) as Hst1.
  { vm_compute in Hrun. by injection Hrun as <-. }
  destruct (Hpromote st1 5%positive Sample.d sample_ix_next_wf
              ltac:(rewrite Hpend; discriminate)
              ltac:(rewrite Hpend; reflexivity) eq_refl) as [Hok _].
  destruct (Hok st1 ltac:(rewrite Hst1; reflexivity)
              ltac:(decide_elem) ltac:(reflexivity))
    as (st2 & Hacc & Hact2 & _ & _ & Hpend2 & _).
  exists st2. rewrite Hpend in Hact2. done.
Defined.

(** On the well-formed sample index, with the pending block in the index but
    on a fork, re-validation succeeds and yet nothing is promoted: the call
    returns false and the pending entry stays. *)
Lemma accept_pending_fork_not_promoted :
  ~ pending_promotion_claim 2 (Sample.nd (-1) true) Sample.ix
      (set_pending 102 Sample.msg102 (Sample.st0 100)).
Proof.
  intros Hclaim.
  destruct (Hclaim ltac:(discriminate) eq_refl _ eq_refl)
    as (st' & Hrun & _).
  vm_compute in Hrun. discriminate Hrun.
Qed.

(** ** Which hash a message stands for *)

(** C7, as the code has it: a message is trusted exactly when its signature
    verifies under the master public key (and its payload decodes).  The
    [hashCheckpoint] field it carries is never compared with the payload:
    [CheckSignature] overwrites it with the hash parsed from the signed
    payload, so a verified message acts for the payload's hash whatever the
    field held.  A message whose signature does not verify fails
    [CheckSignature] and leaves the state alone. *)
Theorem check_signature_trusts_payload `{Primitives} fuel nd ix this st :
  (signature_verifies nd this = false ->
     CheckSignature nd this = Done (false, this)
     /\ ProcessSyncCheckpoint fuel nd ix this st = Done (false, this, st))
  /\ (forall h,
        signature_verifies nd this = true ->
        Unserialize (vchMsg this) = Some h ->
        CheckSignature nd this
          = Done (true, mkMsg h (vchMsg this) (vchSig this))
        /\ forall field,
             ProcessSyncCheckpoint fuel nd ix
                 (mkMsg field (vchMsg this) (vchSig this)) st
               = ProcessSyncCheckpoint fuel nd ix this st).
Proof.
  split.
  - intros Hsig. split; [|by apply process_unsigned].
    unfold CheckSignature. by rewrite Hsig.
  - intros h Hsig Hpay. split.
    + unfold CheckSignature. by rewrite Hsig, Hpay.
    + intros field.
      rewrite (process_signed _ _ _ _ st h Hsig Hpay).
      by rewrite (process_signed _ _ _ (mkMsg field _ _) st h Hsig Hpay).
Qed.

Lemma check_signature_trusts_payload_witness :
  @CheckSignature Sample.prims (Sample.nd (-1) true) Sample.forged
    = Done (false, Sample.forged)
  /\ @CheckSignature Sample.prims (Sample.nd (-1) true) Sample.mismatched
     = Done (true, Sample.msg103)
  /\ @ProcessSyncCheckpoint Sample.prims 2 (Sample.nd (-1) true) Sample.ix
         Sample.msg103 (Sample.st0 100)
     = @ProcessSyncCheckpoint Sample.prims 2 (Sample.nd (-1) true) Sample.ix
         Sample.mismatched (Sample.st0 100).
Proof.
  split; [|split].
  - apply (proj1 (@check_signature_trusts_payload Sample.prims 2
                    (Sample.nd (-1) true) Sample.ix Sample.forged
                    (Sample.st0 100))).
    reflexivity.
  - apply (proj2 (@check_signature_trusts_payload Sample.prims 2
                    (Sample.nd (-1) true) Sample.ix Sample.mismatched
                    (Sample.st0 100)) 103 eq_refl eq_refl).
  - apply (proj2 (proj2 (@check_signature_trusts_payload Sample.prims 2
                    (Sample.nd (-1) true) Sample.ix Sample.mismatched
                    (Sample.st0 100)) 103 eq_refl eq_refl) 103).
Defined.

(** A signed message whose field says [101] and whose payload says [103]
    passes [CheckSignature]. *)
Lemma check_signature_accepts_mismatch :
  ~ @payload_mismatch_claim Sample.prims (Sample.nd (-1) true)
      Sample.mismatched.
Proof.
  intros Hclaim.
  destruct (Hclaim 103 eq_refl ltac:(discriminate)) as (this' & Hrun).
  vm_compute in Hrun. discriminate Hrun.
Qed.

(** ** The direct path and the pending path *)

(** C10: for a signed message whose block is in the index,
    [ProcessSyncCheckpoint] follows [ValidateSyncCheckpoint] alone: once that
    returns true the checkpoint becomes active as soon as the write succeeds,
    with no test of the canonical chain.  [AcceptPendingSyncCheckpoint]
    returns true only for a pending block on the canonical chain; with
    validation passed and the block off the chain it returns false and leaves
    the state, the pending entry included, as it was. *)
Theorem direct_and_pending_paths_differ `{Primitives} fuel nd ix st :
  index_wf ix ->
  (forall this h st1,
     signature_verifies nd this = true ->
     Unserialize (vchMsg this) = Some h ->
     count ix h = true ->
     ValidateSyncCheckpoint fuel ix h st = Done (true, st1) ->
     let this' := mkMsg h (vchMsg this) (vchSig this) in
     ProcessSyncCheckpoint fuel nd ix this st =
       if txdbWrite nd h
       then Done (true, this',
                  mkState h uint256_zero this' SetNull
                    (hashInvalidCheckpoint st) (Some h))
       else Done (false, this', st))
  /\ (forall p st1,
        hashPendingCheckpoint st <> uint256_zero ->
        mapBlockIndex ix !! hashPendingCheckpoint st = Some p ->
        ValidateSyncCheckpoint fuel ix (hashPendingCheckpoint st) st
          = Done (true, st1) ->
        p ∉ chainActive ix ->
        AcceptPendingSyncCheckpoint fuel nd ix st = Done (false, st))
  /\ (forall p st',
        mapBlockIndex ix !! hashPendingCheckpoint st = Some p ->
        AcceptPendingSyncCheckpoint fuel nd ix st = Done (true, st') ->
        p ∈ chainActive ix).
Proof.
  intros WF. split; [|split].
  - intros this h st1 Hsig Hpay Hcount Hv this'.
    rewrite (process_signed _ _ _ _ _ _ Hsig Hpay). simpl.
    rewrite Hcount, Hv. simpl.
    destruct (validate_frame _ _ _ _ _ _ Hv) as [[_ ->]|[? _]]; [|done].
    unfold WriteSyncCheckpoint. by destruct (txdbWrite nd h).
  - intros p st1 Hnz Hp Hv Hout.
    destruct (map_entry ix WF _ _ Hp) as (b & Hb & _).
    rewrite (accept_present _ _ _ _ _ _ WF Hnz Hp Hb), Hv. simpl.
    by rewrite (bool_decide_eq_false_2 _ Hout).
  - intros p st' Hp Hacc.
    destruct (map_entry ix WF _ _ Hp) as (b & Hb & _).
    destruct (decide (hashPendingCheckpoint st = uint256_zero)) as [Hz|Hnz].
    { unfold AcceptPendingSyncCheckpoint in Hacc. rewrite Hz in Hacc.
      simpl in Hacc. discriminate Hacc. }
    rewrite (accept_present _ _ _ _ _ _ WF Hnz Hp Hb) in Hacc.
    destruct (ValidateSyncCheckpoint fuel ix (hashPendingCheckpoint st) st)
      as [[[|] st1]|]; simpl in Hacc; [|done|done].
    destruct (decide (p ∈ chainActive ix)) as [Hin|Hout]; [done|].
    rewrite (bool_decide_eq_false_2 _ Hout) in Hacc. discriminate Hacc.
Qed.

Lemma direct_and_pending_paths_differ_witness :
  @ProcessSyncCheckpoint Sample.prims 2 (Sample.nd (-1) true) Sample.ix
      Sample.msg102 (Sample.st0 100)
    = Done (true, Sample.msg102,
            mkState 102 uint256_zero Sample.msg102 SetNull uint256_zero
              (Some 102))
  /\ (3%positive ∉ chainActive Sample.ix)
  /\ AcceptPendingSyncCheckpoint 2 (Sample.nd (-1) true) Sample.ix
       (set_pending 102 Sample.msg102 (Sample.st0 100))
     = Done (false, set_pending 102 Sample.msg102 (Sample.st0 100)).
Proof.
  assert (3%positive ∉ chainActive Sample.ix) as Hout by decide_elem.
  split; [|split; [done|]].
  - apply (proj1 (@direct_and_pending_paths_differ Sample.prims 2
                    (Sample.nd (-1) true) Sample.ix (Sample.st0 100)
                    sample_ix_wf)
             Sample.msg102 102 (Sample.st0 100) eq_refl eq_refl eq_refl
             eq_refl).
  - apply (proj1 (proj2 (@direct_and_pending_paths_differ Sample.prims 2
                    (Sample.nd (-1) true) Sample.ix
                    (set_pending 102 Sample.msg102 (Sample.st0 100))
                    sample_ix_wf))
             3%positive (set_pending 102 Sample.msg102 (Sample.st0 100))
             ltac:(discriminate) eq_refl eq_refl Hout).
Defined.

(** ** Processing a checkpoint message twice *)

(** After a message has become the active checkpoint, processing it again
    changes nothing provided its block is on the canonical chain. *)
Lemma process_again_on_chain `{Primitives} fuel fuel' nd ix this this' st st' p :
  index_wf ix ->
  ProcessSyncCheckpoint fuel nd ix this st = Done (true, this', st') ->
  mapBlockIndex ix !! hashCheckpoint this' = Some p ->
  p ∈ chainActive ix ->
  ProcessSyncCheckpoint fuel' nd ix this st' = Done (false, this', st').
Proof.
  intros WF Hfirst Hp Hin.
  unfold ProcessSyncCheckpoint, CheckSignature in Hfirst.
  destruct (signature_verifies nd this) eqn:Hsig; [|done]. simpl in Hfirst.
  destruct (Unserialize (vchMsg this)) as [h|] eqn:Hpay; [|done].
  simpl in Hfirst.
  destruct (count ix h) eqn:Hcount; [|done]. simpl in Hfirst.
  destruct (ValidateSyncCheckpoint fuel ix h st) as [[[|] st1]|] eqn:Hv;
    simpl in Hfirst; [|done|done].
  unfold WriteSyncCheckpoint in Hfirst.
  destruct (txdbWrite nd h); simpl in Hfirst; [|done].
  injection Hfirst as <- <-. simpl in Hp.
  destruct (map_entry ix WF _ _ Hp) as (b & Hb & _).
  rewrite (process_signed _ _ _ _ _ _ Hsig Hpay). simpl.
  rewrite Hcount. simpl.
  unfold ValidateSyncCheckpoint. simpl. resolve_index.
  destruct (Z.leb_spec (nHeight b) (nHeight b)); [|lia].
  rewrite (Contains_spec _ _ _ WF Hb). simpl.
  by rewrite (bool_decide_eq_true_2 _ Hin).
Qed.

(** C9 on the sample index: the signed message naming the fork block [102]
    is accepted on top of genesis; processed again, it is measured against
    itself, found off the canonical chain and recorded in
    [hashInvalidCheckpoint], so the second call changes the state. *)
Theorem process_twice_flags_active :
  exists s1 s2,
    @ProcessSyncCheckpoint Sample.prims 2 (Sample.nd (-1) true) Sample.ix
        Sample.msg102 (Sample.st0 100)
      = Done (true, Sample.msg102, s1)
    /\ @ProcessSyncCheckpoint Sample.prims 2 (Sample.nd (-1) true) Sample.ix
         Sample.msg102 s1
       = Done (false, Sample.msg102, s2)
    /\ hashSyncCheckpoint s1 = 102
    /\ hashInvalidCheckpoint s1 = uint256_zero
    /\ hashInvalidCheckpoint s2 = 102
    /\ s2 <> s1.
Proof.
  exists (mkState 102 uint256_zero Sample.msg102 SetNull uint256_zero
            (Some 102)),
         (mkState 102 uint256_zero Sample.msg102 SetNull 102 (Some 102)).
  split; [reflexivity|]. split; [reflexivity|].
  repeat split. discriminate.
Qed.

(** ** AutoSelectSyncCheckpoint *)

Lemma to_int_exact z : INT_MIN <= z <= INT_MAX -> to_int z = z.
Proof.
  unfold to_int, INT_MIN, INT_MAX. intros Hr. rewrite Z.mod_small; lia.
Qed.

(** The entry at position [i] of the canonical chain. *)
Lemma chain_entry ix i p :
  index_wf ix -> chainActive ix !! i = Some p ->
  exists b, vBlocks ix !! p = Some b
            /\ nHeight b = Z.of_nat i
            /\ pprev b = match i with
                         | O => None
                         | S j => chainActive ix !! j
                         end.
Proof.
  intros WF Hi. pose proof (wf_chain _ WF _ _ Hi) as Hl.
  unfold link_wfb in Hl. destruct (vBlocks ix !! p) as [b|] eqn:Hb; [|done].
  apply andb_true_iff in Hl as [Hh Hprev]. apply Z.eqb_eq in Hh. exists b.
  split; [done|]. split; [done|].
  destruct i as [|j].
  - destruct (pprev b) as [q|] eqn:Hq; [|done].
    destruct (parent_entry ix WF _ _ _ Hb Hq) as (bq & Hbq & Hhq).
    pose proof (height_range ix WF _ _ Hbq). lia.
  - by apply bool_decide_eq_true in Hprev.
Qed.

Lemma tip_lookup ix tip :
  Tip ix = Some tip ->
  chainActive ix !! pred (length (chainActive ix)) = Some tip.
Proof. unfold Tip. by rewrite last_lookup. Qed.

(** Started on the canonical chain at position [i], not above the tip, with
    a depth that keeps the sums inside [int], the backward search stops at
    position [min i (max 0 (tip - depth))]. *)
Lemma search_backward_chain ix depth tipHeight :
  index_wf ix -> 0 <= depth -> tipHeight + depth <= INT_MAX ->
  forall i fuel p,
    chainActive ix !! i = Some p -> Z.of_nat i <= tipHeight ->
    (i <= fuel)%nat ->
    exists q,
      chainActive ix
        !! Z.to_nat (Z.min (Z.of_nat i) (Z.max 0 (tipHeight - depth))) = Some q
      /\ search_backward fuel ix depth tipHeight p = Done q.
Proof.
  intros WF Hd Hmax. induction i as [|j IH]; intros fuel p Hi Hle Hfuel.
  - exists p. destruct (chain_entry _ _ _ WF Hi) as (b & Hb & Hh & Hprev).
    split; [by replace (Z.to_nat _) with 0%nat by lia|].
    destruct fuel; simpl; rewrite (deref_Some _ _ _ Hb); simpl;
      by rewrite Hprev.
  - destruct (chain_entry _ _ _ WF Hi) as (b & Hb & Hh & Hprev).
    assert (is_Some (chainActive ix !! j)) as [q Hq].
    { apply lookup_lt_is_Some. apply lookup_lt_Some in Hi. lia. }
    rewrite Hq in Hprev.
    assert (int_add (nHeight b) depth = nHeight b + depth) as Hadd.
    { apply int_add_exact. unfold INT_MIN, INT_MAX in *. lia. }
    destruct (Z.ltb_spec tipHeight (nHeight b + depth)) as [Hgo|Hstop].
    + destruct fuel as [|n]; [lia|].
      destruct (IH n q Hq ltac:(lia) ltac:(lia)) as (r & Hr & Hrun).
      exists r. split.
      * replace (Z.min (Z.of_nat (S j)) (Z.max 0 (tipHeight - depth)))
          with (Z.min (Z.of_nat j) (Z.max 0 (tipHeight - depth))) by lia.
        done.
      * simpl. rewrite (deref_Some _ _ _ Hb). simpl. rewrite Hprev, Hadd.
        destruct (Z.ltb_spec tipHeight (nHeight b + depth)); [done | lia].
    + exists p. split.
      * replace (Z.to_nat _) with (S j) by lia. done.
      * destruct fuel; simpl; rewrite (deref_Some _ _ _ Hb); simpl;
          rewrite Hprev, Hadd;
          destruct (Z.ltb_spec tipHeight (nHeight b + depth)); done || lia.
Qed.

(** Whatever the depth, the backward search ends on an entry of the index
    within as many steps as the starting height. *)
Lemma search_backward_total ix depth tipHeight :
  index_wf ix ->
  forall fuel p b,
    vBlocks ix !! p = Some b -> (Z.to_nat (nHeight b) <= fuel)%nat ->
    exists q bq, search_backward fuel ix depth tipHeight p = Done q
                 /\ vBlocks ix !! q = Some bq.
Proof.
  intros WF. induction fuel as [|n IH]; intros p b Hb Hfuel.
  - pose proof (height_range ix WF _ _ Hb) as Hr.
    destruct (pprev b) as [q|] eqn:Hq.
    + destruct (parent_entry ix WF _ _ _ Hb Hq) as (bq & Hbq & Hhq).
      pose proof (height_range ix WF _ _ Hbq). lia.
    + exists p, b. simpl. rewrite (deref_Some _ _ _ Hb). simpl.
      by rewrite Hq.
  - simpl. rewrite (deref_Some _ _ _ Hb). simpl.
    destruct (pprev b) as [q|] eqn:Hq; [|by eauto].
    destruct (_ <? _); [|by eauto].
    destruct (parent_entry ix WF _ _ _ Hb Hq) as (bq & Hbq & Hhq).
    apply (IH q bq Hbq). lia.
Qed.

(** C8, for depths that keep [height + depth] inside [int]: with a
    non-empty canonical chain, depth zero selects the tip; a positive depth
    [d] selects the canonical block at height [tip - d] when the tip is at
    least [d] high, and the genesis block, first of the chain and without
    parent, when it is not.  For every depth whatsoever the backward walk
    ends with a result. *)
Theorem auto_select_at_depth fuel nd ix tip bTip :
  index_wf ix ->
  Tip ix = Some tip ->
  vBlocks ix !! tip = Some bTip ->
  (Z.to_nat (nHeight bTip) <= fuel)%nat ->
  let d := checkpointdepth nd in
  (d = 0 -> AutoSelectSyncCheckpoint fuel nd ix = Done (phashBlock bTip))
  /\ (0 < d -> nHeight bTip + d <= INT_MAX ->
      exists p b,
        chainActive ix !! Z.to_nat (Z.max 0 (nHeight bTip - d)) = Some p
        /\ vBlocks ix !! p = Some b
        /\ AutoSelectSyncCheckpoint fuel nd ix = Done (phashBlock b)
        /\ (d <= nHeight bTip -> nHeight b = nHeight bTip - d)
        /\ (nHeight bTip <= d -> nHeight b = 0 /\ pprev b = None))
  /\ (exists h, AutoSelectSyncCheckpoint fuel nd ix = Done h).
Proof.
  intros WF Htip Hb Hfuel d.
  pose proof (tip_lookup _ _ Htip) as Hlast.
  destruct (chain_entry _ _ _ WF Hlast) as (b' & Hb' & Hh & _).
  rewrite Hb in Hb'. injection Hb' as <-.
  pose proof (height_range ix WF _ _ Hb) as Hr.
  assert (forall depth, 0 <= depth -> nHeight bTip + depth <= INT_MAX ->
            d = depth ->
            exists p b,
              chainActive ix !! Z.to_nat (Z.max 0 (nHeight bTip - depth))
                = Some p
              /\ vBlocks ix !! p = Some b
              /\ nHeight b = Z.max 0 (nHeight bTip - depth)
              /\ pprev b = match Z.to_nat (Z.max 0 (nHeight bTip - depth)) with
                           | O => None
                           | S j => chainActive ix !! j
                           end
              /\ AutoSelectSyncCheckpoint fuel nd ix = Done (phashBlock b))
    as Hsel.
  { intros depth Hd Hmax Heq.
    destruct (search_backward_chain ix depth (nHeight bTip) WF Hd Hmax
                _ fuel tip Hlast ltac:(lia) ltac:(lia)) as (q & Hq & Hrun).
    replace (Z.min _ _) with (Z.max 0 (nHeight bTip - depth)) in Hq by lia.
    destruct (chain_entry _ _ _ WF Hq) as (bq & Hbq & Hhq & Hpq).
    exists q, bq. repeat split; [done | done | lia | done |].
    unfold AutoSelectSyncCheckpoint. rewrite Htip.
    rewrite (deref_Some _ _ _ Hb). simpl.
    fold d. rewrite Heq, to_int_exact
      by (unfold INT_MIN, INT_MAX in *; lia).
    rewrite Hrun. simpl. by rewrite (deref_Some _ _ _ Hbq). }
  split; [|split].
  - intros Hz. destruct (Hsel 0 ltac:(lia) ltac:(lia) Hz)
      as (p & b & Hp & Hpb & _ & _ & Hrun).
    replace (Z.to_nat _) with (pred (length (chainActive ix))) in Hp by lia.
    rewrite Hlast in Hp. injection Hp as <-.
    rewrite Hb in Hpb. by injection Hpb as <-.
  - intros Hpos Hmax.
    destruct (Hsel d ltac:(lia) Hmax eq_refl)
      as (p & b & Hp & Hpb & Hhb & Hprev & Hrun).
    exists p, b.
    split; [done|]. split; [done|]. split; [done|]. split; [lia|].
    intros Hlow. split; [lia|].
    replace (Z.to_nat _) with 0%nat in Hprev by lia. done.
  - unfold AutoSelectSyncCheckpoint. rewrite Htip.
    rewrite (deref_Some _ _ _ Hb). simpl.
    destruct (search_backward_total ix (to_int (checkpointdepth nd))
                (nHeight bTip) WF fuel tip bTip Hb Hfuel)
      as (q & bq & -> & Hbq).
    simpl. rewrite (deref_Some _ _ _ Hbq). simpl. eauto.
Qed.

Lemma auto_select_at_depth_witness :
  AutoSelectSyncCheckpoint 2 (Sample.nd 0 true) Sample.ix = Done 103
  /\ AutoSelectSyncCheckpoint 2 (Sample.nd 1 true) Sample.ix = Done 101
  /\ AutoSelectSyncCheckpoint 2 (Sample.nd 7 true) Sample.ix = Done 100.
Proof.
  split; [|split].
  - apply (proj1 (auto_select_at_depth 2 (Sample.nd 0 true) Sample.ix
                    4%positive Sample.c sample_ix_wf eq_refl eq_refl
                    ltac:(vm_compute; lia)) eq_refl).
  - destruct (proj1 (proj2 (auto_select_at_depth 2 (Sample.nd 1 true)
                    Sample.ix 4%positive Sample.c sample_ix_wf eq_refl
                    eq_refl ltac:(vm_compute; lia)))
                ltac:(reflexivity) ltac:(vm_compute; discriminate))
      as (p & b & Hp & Hb & Hrun & _).
    vm_compute in Hp. injection Hp as <-.
    vm_compute in Hb. injection Hb as <-. exact Hrun.
  - destruct (proj1 (proj2 (auto_select_at_depth 2 (Sample.nd 7 true)
                    Sample.ix 4%positive Sample.c sample_ix_wf eq_refl
                    eq_refl ltac:(vm_compute; lia)))
                ltac:(reflexivity) ltac:(vm_compute; discriminate))
      as (p & b & Hp & Hb & Hrun & _).
    vm_compute in Hp. injection Hp as <-.
    vm_compute in Hb. injection Hb as <-. exact Hrun.
Defined.

(** With the depth at [INT_MAX] on the sample chain of height two, the first
    sum [2 + 2147483647] wraps below zero, the loop never starts, and the
    tip, hash [103], is selected instead of genesis, hash [100]. *)
Lemma auto_select_depth_wraps :
  ~ auto_select_claim 2 (Sample.nd 2147483647 true) Sample.ix.
Proof.
  intros Hclaim.
  destruct (Hclaim 4%positive Sample.c eq_refl eq_refl eq_refl)
    as (p & b & Hp & Hb & Hrun).
  vm_compute in Hp. injection Hp as <-.
  vm_compute in Hb. injection Hb as <-.
  vm_compute in Hrun. discriminate Hrun.
Qed.

(** ** The operations return

    In a well-formed index, and with a step bound that covers the highest
    possible block, no operation stops on a bad pointer or for lack of
    steps; the one abnormal exit left is the exception of the payload
    decoding in [CheckSignature]. *)

Lemma count_true ix h :
  count ix h = true -> exists p, mapBlockIndex ix !! h = Some p.
Proof.
  unfold count. intros Hc. apply bool_decide_eq_true in Hc as [p Hp]. eauto.
Qed.

Lemma trace_back_returns ix fuel p b target :
  index_wf ix ->
  vBlocks ix !! p = Some b ->
  (Z.to_nat (nHeight b - target) <= fuel)%nat ->
  (exists q bq, trace_back fuel ix p target = Done (Some q)
                /\ vBlocks ix !! q = Some bq)
  \/ trace_back fuel ix p target = Done None.
Proof.
  intros WF Hb Hfuel. destruct (Z.le_gt_cases target (nHeight b)) as [Hle|Hgt].
  - destruct (trace_back_spec ix WF fuel p b target Hb Hle Hfuel)
      as [(q & bq & (_ & Hq & _) & Ht)|[_ Ht]]; eauto.
  - left. exists p, b. split; [|done].
    destruct fuel; simpl; rewrite (deref_Some _ _ _ Hb); simpl;
      destruct (Z.ltb_spec target (nHeight b)); done || lia.
Qed.

Lemma validate_returns fuel ix h st :
  index_wf ix -> (Z.to_nat INT_MAX <= fuel)%nat ->
  exists b st', ValidateSyncCheckpoint fuel ix h st = Done (b, st').
Proof.
  intros WF Hfuel. unfold ValidateSyncCheckpoint.
  destruct (count ix (hashSyncCheckpoint st)) eqn:Hcs; simpl; [|eauto].
  destruct (count ix h) eqn:Hch; simpl; [|eauto].
  destruct (count_true _ _ Hcs) as (ps & Hps).
  destruct (count_true _ _ Hch) as (pc & Hpc).
  destruct (map_entry ix WF _ _ Hps) as (bs & Hbs & _).
  destruct (map_entry ix WF _ _ Hpc) as (bc & Hbc & _).
  resolve_index. destruct (_ <=? _).
  - rewrite (Contains_spec _ _ _ WF Hbc). simpl.
    destruct (bool_decide _); simpl; eauto.
  - pose proof (height_range ix WF _ _ Hbs).
    pose proof (height_range ix WF _ _ Hbc).
    destruct (trace_back_returns ix fuel pc bc (nHeight bs) WF Hbc
                ltac:(lia)) as [(q & bq & -> & Hq)| ->]; simpl; [|eauto].
    rewrite (deref_Some _ _ _ Hq). simpl. destruct (negb _); eauto.
Qed.

Lemma accept_returns fuel nd ix st :
  index_wf ix -> (Z.to_nat INT_MAX <= fuel)%nat ->
  exists b st', AcceptPendingSyncCheckpoint fuel nd ix st = Done (b, st').
Proof.
  intros WF Hfuel. unfold AcceptPendingSyncCheckpoint.
  destruct (negb (hashPendingCheckpoint st =? uint256_zero)); simpl; [|eauto].
  destruct (count ix (hashPendingCheckpoint st)) eqn:Hc; simpl; [|eauto].
  destruct (validate_returns fuel ix (hashPendingCheckpoint st) st WF Hfuel)
    as (valid & st1 & Hv).
  rewrite Hv. simpl. destruct valid; simpl; [|eauto].
  destruct (validate_keeps_active _ _ _ _ _ _ Hv) as (_ & -> & _).
  destruct (count_true _ _ Hc) as (p & Hp).
  destruct (map_entry ix WF _ _ Hp) as (b & Hb & _).
  rewrite (at_hash_Some _ _ _ Hp). simpl.
  rewrite (Contains_spec _ _ _ WF Hb). simpl.
  destruct (bool_decide _); simpl; [|eauto].
  destruct (WriteSyncCheckpoint nd (hashPendingCheckpoint st) st1)
    as [[|] st2]; simpl; eauto.
Qed.

Lemma check_returns fuel nd ix hashBlock pindexPrev bPrev st :
  index_wf ix -> (Z.to_nat INT_MAX <= fuel)%nat ->
  vBlocks ix !! pindexPrev = Some bPrev ->
  exists b st',
    CheckSyncCheckpoint fuel nd ix hashBlock pindexPrev st = Done (b, st').
Proof.
  intros WF Hfuel Hprev. unfold CheckSyncCheckpoint.
  rewrite (deref_Some _ _ _ Hprev). simpl.
  destruct (hashSyncCheckpoint st =? uint256_zero); simpl; [eauto|].
  destruct (count ix (hashSyncCheckpoint st)) eqn:Hc; simpl; [|eauto].
  destruct (count_true _ _ Hc) as (ps & Hps).
  destruct (map_entry ix WF _ _ Hps) as (bs & Hbs & _).
  resolve_index. destruct (nHeight bs <? _); [|eauto].
  pose proof (height_range ix WF _ _ Hbs).
  pose proof (height_range ix WF _ _ Hprev).
  destruct (trace_back_returns ix fuel pindexPrev bPrev (nHeight bs) WF Hprev
              ltac:(lia)) as [(q & bq & -> & Hq)| ->]; simpl; [|eauto].
  rewrite (Contains_spec _ _ _ WF Hq). simpl.
  destruct (bool_decide _); simpl; eauto.
Qed.

Lemma reset_returns nd ix st :
  index_wf ix -> exists b st', ResetSyncCheckpoint nd ix st = Done (b, st').
Proof.
  intros WF. unfold ResetSyncCheckpoint.
  destruct (count ix (hashLatestHardened nd)) eqn:Hc; simpl.
  - destruct (count_true _ _ Hc) as (p & Hp).
    destruct (map_entry ix WF _ _ Hp) as (b & Hb & _).
    rewrite (at_hash_Some _ _ _ Hp). simpl.
    rewrite (Contains_spec _ _ _ WF Hb). simpl.
    destruct (WriteSyncCheckpoint _ _ _); eauto.
  - destruct (WriteSyncCheckpoint _ _ _); eauto.
Qed.

Lemma process_returns `{Primitives} fuel nd ix this st :
  index_wf ix -> (Z.to_nat INT_MAX <= fuel)%nat ->
  (exists b this' st',
     ProcessSyncCheckpoint fuel nd ix this st = Done (b, this', st'))
  \/ (signature_verifies nd this = true
      /\ Unserialize (vchMsg this) = None
      /\ ProcessSyncCheckpoint fuel nd ix this st = Stuck StreamFailure).
Proof.
  intros WF Hfuel.
  destruct (signature_verifies nd this) eqn:Hsig.
  - destruct (Unserialize (vchMsg this)) as [h|] eqn:Hpay.
    + left. rewrite (process_signed _ _ _ _ _ _ Hsig Hpay). simpl.
      destruct (count ix h); simpl; [|eauto].
      destruct (validate_returns fuel ix h st WF Hfuel) as ([|] & st1 & ->);
        simpl; [|eauto].
      destruct (WriteSyncCheckpoint nd h st1) as [[|] st2]; simpl; eauto.
    + right. repeat split.
      unfold ProcessSyncCheckpoint, CheckSignature. by rewrite Hsig, Hpay.
  - left. rewrite (process_unsigned _ _ _ _ _ Hsig). eauto.
Qed.

(** * Further properties of the checkpoint code *)

(** ** Validation: missing entries and what it may write *)

(** [ValidateSyncCheckpoint] gives up, returning false with nothing written,
    as soon as the active checkpoint or the candidate has no entry in
    [mapBlockIndex]; no block is looked at, so this holds in any index. *)
Theorem validate_missing_index fuel ix cand st :
  mapBlockIndex ix !! hashSyncCheckpoint st = None
  \/ mapBlockIndex ix !! cand = None ->
  ValidateSyncCheckpoint fuel ix cand st = Done (false, st).
Proof.
  intros Hmiss. unfold ValidateSyncCheckpoint.
  destruct (count ix (hashSyncCheckpoint st)) eqn:Hcs; simpl; [|done].
  destruct Hmiss as [Hs|Hc].
  - rewrite (count_None _ _ Hs) in Hcs. discriminate Hcs.
  - by rewrite (count_None _ _ Hc).
Qed.

Lemma validate_missing_index_witness :
  ValidateSyncCheckpoint 0 Sample.ix 104 (Sample.st0 100)
    = Done (false, Sample.st0 100)
  /\ ValidateSyncCheckpoint 0 Sample.ix 103 (Sample.st0 77)
     = Done (false, Sample.st0 77).
Proof.
  split.
  - apply (validate_missing_index 0 Sample.ix 104 (Sample.st0 100)).
    right. reflexivity.
  - apply (validate_missing_index 0 Sample.ix 103 (Sample.st0 77)).
    left. reflexivity.
Defined.

(** Whatever the index and the step bound, a returning
    [ValidateSyncCheckpoint] writes at most [hashInvalidCheckpoint], and then
    the candidate hash; the active checkpoint, the pending slot, the accepted
    message and the database value are as before, and a true result comes
    with no write at all. *)
Theorem validate_writes_marker_only fuel ix cand st b st' :
  ValidateSyncCheckpoint fuel ix cand st = Done (b, st') ->
  hashSyncCheckpoint st' = hashSyncCheckpoint st
  /\ hashPendingCheckpoint st' = hashPendingCheckpoint st
  /\ checkpointMessage st' = checkpointMessage st
  /\ checkpointMessagePending st' = checkpointMessagePending st
  /\ dbSyncCheckpoint st' = dbSyncCheckpoint st
  /\ (hashInvalidCheckpoint st' = hashInvalidCheckpoint st
      \/ hashInvalidCheckpoint st' = cand)
  /\ (b = true -> st' = st).
Proof.
  intros Hv.
  destruct (validate_frame _ _ _ _ _ _ Hv) as [[-> ->]|[-> [->| ->]]];
    simpl; repeat split; auto; discriminate.
Qed.

Lemma validate_writes_marker_only_witness :
  hashSyncCheckpoint (set_hashInvalidCheckpoint 102 (Sample.st0 101)) = 101
  /\ hashInvalidCheckpoint (set_hashInvalidCheckpoint 102 (Sample.st0 101))
     = 102.
Proof.
  destruct (validate_writes_marker_only 0 Sample.ix 102 (Sample.st0 101)
              false (set_hashInvalidCheckpoint 102 (Sample.st0 101)) eq_refl)
    as (Ha & _ & _ & _ & _ & _ & _).
  split; [exact Ha | reflexivity].
Defined.

(** ** Successful transitions move to a strict descendant *)

(** What the trace-back loop returns is an ancestor of its starting block;
    started at or above the target it stops exactly at the target height. *)
Lemma trace_back_sound ix fuel p b target q :
  index_wf ix ->
  vBlocks ix !! p = Some b -> target <= nHeight b ->
  trace_back fuel ix p target = Done (Some q) ->
  exists bq, ancestor_at ix p target q bq.
Proof.
  intros WF. revert p b. induction fuel as [|n IH]; intros p b Hb Hle Ht.
  - simpl in Ht. rewrite (deref_Some _ _ _ Hb) in Ht. simpl in Ht.
    destruct (Z.ltb_spec target (nHeight b)).
    + by destruct (pprev b).
    + injection Ht as <-. exists b. repeat split; [constructor | done | lia].
  - simpl in Ht. rewrite (deref_Some _ _ _ Hb) in Ht. simpl in Ht.
    destruct (Z.ltb_spec target (nHeight b)).
    + destruct (pprev b) as [r|] eqn:Hr; [|done].
      destruct (parent_entry ix WF _ _ _ Hb Hr) as (br & Hbr & Hh).
      destruct (IH r br Hbr ltac:(lia) Ht) as (bq & Ha & Hq & Hhq).
      exists bq. repeat split; [|done|done]. eapply ancestor_step; eauto.
    + injection Ht as <-. exists b. repeat split; [constructor | done | lia].
Qed.

(** A true result of [ValidateSyncCheckpoint] means a strict descendant. *)
Lemma validate_true_descends fuel ix cand st st' :
  index_wf ix ->
  ValidateSyncCheckpoint fuel ix cand st = Done (true, st') ->
  descends_strictly ix cand (hashSyncCheckpoint st) /\ st' = st.
Proof.
  intros WF Hv.
  destruct (validate_frame _ _ _ _ _ _ Hv) as [[_ ->]|[? _]]; [|done].
  split; [|done]. unfold ValidateSyncCheckpoint in Hv.
  destruct (count ix (hashSyncCheckpoint st)) eqn:Hcs; [|done].
  destruct (count ix cand) eqn:Hcc; [|done]. simpl in Hv.
  unfold count in Hcs, Hcc.
  apply bool_decide_eq_true in Hcs as [ps Hps].
  apply bool_decide_eq_true in Hcc as [pc Hpc].
  destruct (map_entry ix WF _ _ Hps) as (bs & Hbs & _).
  destruct (map_entry ix WF _ _ Hpc) as (bc & Hbc & _).
  rewrite (at_hash_Some _ _ _ Hps), (at_hash_Some _ _ _ Hpc) in Hv.
  simpl in Hv.
  rewrite (deref_Some _ _ _ Hbc), (deref_Some _ _ _ Hbs) in Hv. simpl in Hv.
  destruct (Z.leb_spec (nHeight bc) (nHeight bs)) as [Hle|Hlt].
  { destruct (Contains ix pc) as [[|]|]; simpl in Hv; discriminate Hv. }
  destruct (trace_back fuel ix pc (nHeight bs)) as [[q|]|] eqn:Ht;
    simpl in Hv; [|done|done].
  destruct (trace_back_sound ix fuel pc bc (nHeight bs) q WF Hbc
              ltac:(lia) Ht) as (bq & Hanc).
  destruct Hanc as (Ha & Hq & Hh).
  rewrite (deref_Some _ _ _ Hq) in Hv. simpl in Hv.
  destruct (Z.eqb_spec (phashBlock bq) (hashSyncCheckpoint st)) as [He|He];
    simpl in Hv; [|done].
  exists pc, bc, ps, bs, q, bq. repeat split; done.
Qed.

(** Whenever [ProcessSyncCheckpoint] returns true, the new active checkpoint
    is the hash decoded from the payload, its block lies strictly higher than
    the previous active block and has it (by hash) as the ancestor at that
    height; the database holds the new hash, the message is recorded, and the
    pending slot is empty.  The same holds for
    [AcceptPendingSyncCheckpoint] and the pending hash, whose block is
    moreover on the canonical chain. *)
Theorem accepted_checkpoint_descends `{Primitives} fuel nd ix st :
  index_wf ix ->
  (forall this this' st',
     ProcessSyncCheckpoint fuel nd ix this st = Done (true, this', st') ->
     Unserialize (vchMsg this) = Some (hashSyncCheckpoint st')
     /\ descends_strictly ix (hashSyncCheckpoint st') (hashSyncCheckpoint st)
     /\ dbSyncCheckpoint st' = Some (hashSyncCheckpoint st')
     /\ checkpointMessage st' = this'
     /\ hashCheckpoint this' = hashSyncCheckpoint st'
     /\ hashPendingCheckpoint st' = uint256_zero
     /\ checkpointMessagePending st' = SetNull)
  /\ (forall st',
        AcceptPendingSyncCheckpoint fuel nd ix st = Done (true, st') ->
        hashSyncCheckpoint st' = hashPendingCheckpoint st
        /\ descends_strictly ix (hashSyncCheckpoint st') (hashSyncCheckpoint st)
        /\ (exists p, mapBlockIndex ix !! hashSyncCheckpoint st' = Some p
                      /\ p ∈ chainActive ix)
        /\ dbSyncCheckpoint st' = Some (hashSyncCheckpoint st')
        /\ checkpointMessage st' = checkpointMessagePending st
        /\ hashPendingCheckpoint st' = uint256_zero
        /\ checkpointMessagePending st' = SetNull).
Proof.
  intros WF. split.
  - intros this this' st' Hp.
    unfold ProcessSyncCheckpoint, CheckSignature in Hp.
    destruct (signature_verifies nd this); [|done]. simpl in Hp.
    destruct (Unserialize (vchMsg this)) as [h|]; [|done]. simpl in Hp.
    destruct (count ix h); [|done]. simpl in Hp.
    destruct (ValidateSyncCheckpoint fuel ix h st) as [[[|] st1]|] eqn:Hv;
      simpl in Hp; [|done|done].
    destruct (validate_true_descends _ _ _ _ _ WF Hv) as [Hd ->].
    unfold WriteSyncCheckpoint in Hp.
    destruct (txdbWrite nd h); simpl in Hp; [|done].
    injection Hp as <- <-. simpl. repeat split; done.
  - intros st' Ha.
    unfold AcceptPendingSyncCheckpoint in Ha.
    destruct (negb (hashPendingCheckpoint st =? uint256_zero)
              && count ix (hashPendingCheckpoint st)) eqn:Hhave; [|done].
    simpl in Ha. apply andb_true_iff in Hhave as [_ Hc].
    destruct (count_true _ _ Hc) as (p & Hp).
    destruct (map_entry ix WF _ _ Hp) as (b & Hb & _).
    destruct (ValidateSyncCheckpoint fuel ix (hashPendingCheckpoint st) st)
      as [[[|] st1]|] eqn:Hv; simpl in Ha; [|done|done].
    destruct (validate_true_descends _ _ _ _ _ WF Hv) as [Hd ->].
    rewrite (at_hash_Some _ _ _ Hp) in Ha. simpl in Ha.
    rewrite (Contains_spec _ _ _ WF Hb) in Ha. simpl in Ha.
    destruct (decide (p ∈ chainActive ix)) as [Hin|Hout].
    + rewrite (bool_decide_eq_true_2 _ Hin) in Ha. simpl in Ha.
      unfold WriteSyncCheckpoint in Ha.
      destruct (txdbWrite nd (hashPendingCheckpoint st)); simpl in Ha;
        [|done].
      injection Ha as <-. simpl. repeat split; eauto.
    + rewrite (bool_decide_eq_false_2 _ Hout) in Ha. discriminate Ha.
Qed.

Lemma accepted_checkpoint_descends_witness :
  descends_strictly Sample.ix 103 100
  /\ descends_strictly Sample.ix_next 104 100.
Proof.
  split.
  - apply (proj1 (@accepted_checkpoint_descends Sample.prims 2
                    (Sample.nd (-1) true) Sample.ix (Sample.st0 100)
                    sample_ix_wf)
             Sample.msg103 Sample.msg103
             (mkState 103 uint256_zero Sample.msg103 SetNull uint256_zero
                (Some 103)) eq_refl).
  - apply (proj2 (@accepted_checkpoint_descends Sample.prims 3
                    (Sample.nd (-1) true) Sample.ix_next
                    (set_pending 104 Sample.msg104 (Sample.st0 100))
                    sample_ix_next_wf)
             (mkState 104 uint256_zero Sample.msg104 SetNull uint256_zero
                (Some 104)) eq_refl).
Defined.

(** ** Failed calls and the pending slot *)

(** A call of [ProcessSyncCheckpoint] or [AcceptPendingSyncCheckpoint] that
    returns false has moved neither the active checkpoint nor the database
    value nor the accepted message: a rejected, ignored or deferred
    checkpoint never shows in them. *)
Theorem rejected_checkpoint_keeps_active `{Primitives} fuel nd ix st :
  (forall this this' st',
     ProcessSyncCheckpoint fuel nd ix this st = Done (false, this', st') ->
     hashSyncCheckpoint st' = hashSyncCheckpoint st
     /\ dbSyncCheckpoint st' = dbSyncCheckpoint st
     /\ checkpointMessage st' = checkpointMessage st)
  /\ (forall st',
        AcceptPendingSyncCheckpoint fuel nd ix st = Done (false, st') ->
        hashSyncCheckpoint st' = hashSyncCheckpoint st
        /\ dbSyncCheckpoint st' = dbSyncCheckpoint st
        /\ checkpointMessage st' = checkpointMessage st).
Proof.
  split.
  - intros this this' st' Hp.
    unfold ProcessSyncCheckpoint, CheckSignature in Hp.
    destruct (signature_verifies nd this); simpl in Hp;
      [|by injection Hp as <- <-].
    destruct (Unserialize (vchMsg this)) as [h|]; [|done]. simpl in Hp.
    destruct (count ix h); simpl in Hp; [|by injection Hp as <- <-].
    destruct (ValidateSyncCheckpoint fuel ix h st) as [[valid st1]|] eqn:Hv;
      simpl in Hp; [|done].
    destruct (validate_frame _ _ _ _ _ _ Hv) as [[-> ->]|[-> Hst1]].
    + unfold WriteSyncCheckpoint in Hp.
      destruct (txdbWrite nd h); simpl in Hp; [done|].
      by injection Hp as <- <-.
    + simpl in Hp. injection Hp as <- <-. by destruct Hst1 as [->| ->].
  - intros st' Ha. unfold AcceptPendingSyncCheckpoint in Ha.
    destruct (negb (hashPendingCheckpoint st =? uint256_zero)
              && count ix (hashPendingCheckpoint st)); simpl in Ha;
      [|by injection Ha as <-].
    destruct (ValidateSyncCheckpoint fuel ix (hashPendingCheckpoint st) st)
      as [[valid st1]|] eqn:Hv; simpl in Ha; [|done].
    destruct (validate_frame _ _ _ _ _ _ Hv) as [[-> ->]|[-> Hst1]].
    + simpl in Ha.
      destruct (at_hash ix (hashPendingCheckpoint st)) as [p|]; [|done].
      simpl in Ha. destruct (Contains ix p) as [[|]|]; simpl in Ha;
        [| by injection Ha as <- | done].
      unfold WriteSyncCheckpoint in Ha.
      destruct (txdbWrite nd (hashPendingCheckpoint st)); simpl in Ha;
        [done|]. by injection Ha as <-.
    + simpl in Ha. injection Ha as <-. by destruct Hst1 as [->| ->].
Qed.

Lemma rejected_checkpoint_keeps_active_witness :
  hashSyncCheckpoint
    (set_hashInvalidCheckpoint 102 (Sample.st0 103)) = 103.
Proof.
  apply (proj1 (@rejected_checkpoint_keeps_active Sample.prims 2
                  (Sample.nd (-1) true) Sample.ix (Sample.st0 103))
           Sample.msg102 Sample.msg102
           (set_hashInvalidCheckpoint 102 (Sample.st0 103)) eq_refl).
Defined.

(** There is one pending slot: of two signed checkpoints whose blocks are
    both unknown, processed one after the other, only the second stays
    pending, and the state is the one the second alone would have left. *)
Theorem pending_slot_overwritten `{Primitives} fuel nd ix m1 m2 h1 h2 st :
  signature_verifies nd m1 = true -> Unserialize (vchMsg m1) = Some h1 ->
  signature_verifies nd m2 = true -> Unserialize (vchMsg m2) = Some h2 ->
  mapBlockIndex ix !! h1 = None -> mapBlockIndex ix !! h2 = None ->
  exists m1' m2' st1 st2,
    ProcessSyncCheckpoint fuel nd ix m1 st = Done (false, m1', st1)
    /\ ProcessSyncCheckpoint fuel nd ix m2 st1 = Done (false, m2', st2)
    /\ ProcessSyncCheckpoint fuel nd ix m2 st = Done (false, m2', st2)
    /\ hashPendingCheckpoint st2 = h2
    /\ checkpointMessagePending st2 = m2'.
Proof.
  intros Hs1 Hp1 Hs2 Hp2 Hn1 Hn2.
  exists (mkMsg h1 (vchMsg m1) (vchSig m1)), (mkMsg h2 (vchMsg m2) (vchSig m2)).
  exists (set_pending h1 (mkMsg h1 (vchMsg m1) (vchSig m1)) st).
  exists (set_pending h2 (mkMsg h2 (vchMsg m2) (vchSig m2)) st).
  rewrite (process_signed _ _ _ _ _ _ Hs1 Hp1).
  rewrite !(process_signed _ _ _ _ _ _ Hs2 Hp2). simpl.
  rewrite (count_None _ _ Hn1), (count_None _ _ Hn2). simpl.
  repeat split; done.
Qed.

Lemma pending_slot_overwritten_witness :
  exists st1,
    @ProcessSyncCheckpoint Sample.prims 0 (Sample.nd (-1) true) Sample.ix
        Sample.msg104 (Sample.st0 100) = Done (false, Sample.msg104, st1)
    /\ @ProcessSyncCheckpoint Sample.prims 0 (Sample.nd (-1) true) Sample.ix
         (mkMsg 0 [x69] [x01]) st1
       = @ProcessSyncCheckpoint Sample.prims 0 (Sample.nd (-1) true) Sample.ix
           (mkMsg 0 [x69] [x01]) (Sample.st0 100).
Proof.
  destruct (@pending_slot_overwritten Sample.prims 0 (Sample.nd (-1) true)
              Sample.ix Sample.msg104 (mkMsg 0 [x69] [x01]) 104 105
              (Sample.st0 100) eq_refl eq_refl eq_refl eq_refl eq_refl
              eq_refl)
    as (m1' & m2' & st1 & st2 & H1 & H2 & H3 & _).
  exists st1. split.
  - rewrite H1. f_equal. f_equal. f_equal.
    vm_compute in H1. by injection H1 as <- _.
  - by rewrite H2, H3.
Defined.

(** [AskForPendingSyncCheckpoint] asks a peer for the pending block exactly
    when there is a peer, the pending hash is set and its block is missing
    from the index; these are the calls on which
    [AcceptPendingSyncCheckpoint] does nothing.  Conversely the peer is never
    asked for a block that [AcceptPendingSyncCheckpoint] would go on to
    validate. *)
Theorem ask_for_pending_or_accept fuel nd ix pfrom st :
  (forall n h,
     AskForPendingSyncCheckpoint ix pfrom st = Some (n, h) <->
     pfrom = Some n /\ h = hashPendingCheckpoint st
     /\ h <> uint256_zero /\ mapBlockIndex ix !! h = None)
  /\ (forall r,
        AskForPendingSyncCheckpoint ix pfrom st = Some r ->
        AcceptPendingSyncCheckpoint fuel nd ix st = Done (false, st))
  /\ (hashPendingCheckpoint st = uint256_zero ->
        AskForPendingSyncCheckpoint ix pfrom st = None
        /\ AcceptPendingSyncCheckpoint fuel nd ix st = Done (false, st)).
Proof.
  assert (forall n h,
            AskForPendingSyncCheckpoint ix pfrom st = Some (n, h) <->
            pfrom = Some n /\ h = hashPendingCheckpoint st
            /\ h <> uint256_zero /\ mapBlockIndex ix !! h = None) as Hask.
  { intros n h. unfold AskForPendingSyncCheckpoint. split.
    - destruct pfrom as [m|]; [|done].
      destruct (Z.eqb_spec (hashPendingCheckpoint st) uint256_zero);
        simpl; [done|].
      destruct (mapBlockIndex ix !! hashPendingCheckpoint st) as [p|] eqn:Hp.
      + by rewrite (count_Some _ _ _ Hp).
      + rewrite (count_None _ _ Hp). simpl. intros [= -> <-]. done.
    - intros (-> & -> & Hnz & Hnone).
      destruct (Z.eqb_spec (hashPendingCheckpoint st) uint256_zero); [done|].
      by rewrite (count_None _ _ Hnone). }
  split; [exact Hask|]. split.
  - intros [n h] Hr. apply Hask in Hr as (_ & -> & _ & Hnone).
    unfold AcceptPendingSyncCheckpoint.
    rewrite (count_None _ _ Hnone). by rewrite andb_false_r.
  - intros Hz. split.
    + unfold AskForPendingSyncCheckpoint. destruct pfrom; [|done].
      by rewrite Hz.
    + unfold AcceptPendingSyncCheckpoint. by rewrite Hz.
Qed.

Lemma ask_for_pending_or_accept_witness :
  AskForPendingSyncCheckpoint Sample.ix (Some 7%nat)
      (set_pending 104 Sample.msg104 (Sample.st0 100))
    = Some (7%nat, 104)
  /\ AcceptPendingSyncCheckpoint 0 (Sample.nd (-1) true) Sample.ix
       (set_pending 104 Sample.msg104 (Sample.st0 100))
     = Done (false, set_pending 104 Sample.msg104 (Sample.st0 100)).
Proof.
  pose proof (ask_for_pending_or_accept 0 (Sample.nd (-1) true) Sample.ix
                (Some 7%nat) (set_pending 104 Sample.msg104 (Sample.st0 100)))
    as (Hask & Hacc & _).
  assert (AskForPendingSyncCheckpoint Sample.ix (Some 7%nat)
            (set_pending 104 Sample.msg104 (Sample.st0 100))
          = Some (7%nat, 104)) as Hr.
  { apply Hask. repeat split. discriminate. }
  split; [exact Hr | exact (Hacc _ Hr)].
Defined.

(** ** CheckSyncCheckpoint above the checkpoint *)

(** One block per height on the canonical chain. *)
Lemma chain_same_height ix p q bp bq :
  index_wf ix ->
  p ∈ chainActive ix -> q ∈ chainActive ix ->
  vBlocks ix !! p = Some bp -> vBlocks ix !! q = Some bq ->
  nHeight bp = nHeight bq -> p = q.
Proof.
  intros WF Hp Hq Hbp Hbq Hh.
  apply (chain_at_elem _ _ _ WF Hbp) in Hp.
  apply (chain_at_elem _ _ _ WF Hbq) in Hq.
  rewrite Hh in Hp. congruence.
Qed.

(** The lower blocks of the canonical chain are ancestors of the higher. *)
Lemma chain_ancestor ix i j p q :
  index_wf ix ->
  chainActive ix !! i = Some p -> chainActive ix !! j = Some q ->
  (j <= i)%nat -> ancestor ix p q.
Proof.
  intros WF. revert p. induction i as [|i IH]; intros p Hi Hj Hle.
  - assert (j = 0)%nat as -> by lia. rewrite Hi in Hj. injection Hj as <-.
    constructor.
  - destruct (decide (j = S i)) as [->|Hne].
    { rewrite Hi in Hj. injection Hj as <-. constructor. }
    destruct (chain_entry _ _ _ WF Hi) as (b & Hb & _ & Hprev).
    assert (is_Some (chainActive ix !! i)) as [r Hr].
    { apply lookup_lt_is_Some. apply lookup_lt_Some in Hi. lia. }
    rewrite Hr in Hprev.
    eapply ancestor_step; [exact Hb | exact Hprev |].
    apply IH; [done | done | lia].
Qed.

(** [CheckSyncCheckpoint] for a block above an initialised checkpoint: the
    loop and the chain test are all that is left. *)
Lemma check_above fuel nd ix hashBlock pindexPrev bPrev st ps bs :
  vBlocks ix !! pindexPrev = Some bPrev ->
  hashSyncCheckpoint st <> uint256_zero ->
  mapBlockIndex ix !! hashSyncCheckpoint st = Some ps ->
  vBlocks ix !! ps = Some bs ->
  nHeight bs < int_add (nHeight bPrev) 1 ->
  CheckSyncCheckpoint fuel nd ix hashBlock pindexPrev st =
    r ← trace_back fuel ix pindexPrev (nHeight bs);
    match r with
    | None => Done (false, st)
    | Some pindex => onChain ← Contains ix pindex; Done (onChain, st)
    end.
Proof.
  intros Hprev Hnz Hps Hbs Hlt. unfold CheckSyncCheckpoint. resolve_index.
  destruct (Z.eqb_spec (hashSyncCheckpoint st) uint256_zero); [done|].
  resolve_index.
  destruct (Z.ltb_spec (nHeight bs) (int_add (nHeight bPrev) 1)); [|lia].
  destruct (Z.eqb_spec (int_add (nHeight bPrev) 1) (nHeight bs)); [lia|].
  destruct (Z.ltb_spec (int_add (nHeight bPrev) 1) (nHeight bs)); [lia|].
  simpl. destruct (trace_back _ _ _ _) as [[q|]|]; simpl; [|done|done].
  destruct (Contains ix q) as [[|]|]; done.
Qed.

Section AboveCheckpoint.
Context (fuel : nat) (nd : Node) (ix : BlockIndex) (hashBlock : uint256)
        (pindexPrev : ptr) (bPrev : CBlockIndex) (st : State)
        (ps : ptr) (bs : CBlockIndex).
Hypothesis WF : index_wf ix.
Hypothesis Hprev : vBlocks ix !! pindexPrev = Some bPrev.
Hypothesis Hfuel : (Z.to_nat (nHeight bPrev) <= fuel)%nat.
Hypothesis Hnz : hashSyncCheckpoint st <> uint256_zero.
Hypothesis Hps : mapBlockIndex ix !! hashSyncCheckpoint st = Some ps.
Hypothesis Hbs : vBlocks ix !! ps = Some bs.
Hypothesis Habove : nHeight bs < int_add (nHeight bPrev) 1.

Lemma above_parent_height : nHeight bs <= nHeight bPrev.
Proof.
  pose proof (height_range ix WF _ _ Hprev) as Hrp.
  pose proof (height_range ix WF _ _ Hbs) as Hrs.
  destruct (new_height_cases _ Hrp) as [[_ Heq]|[_ Heq]];
    rewrite Heq in Habove; unfold INT_MIN in *; lia.
Qed.

(** The parent descends from the checkpoint block: the verdict is whether
    the checkpoint block is on the canonical chain. *)
Lemma check_above_descendant :
  ancestor ix pindexPrev ps ->
  CheckSyncCheckpoint fuel nd ix hashBlock pindexPrev st
    = Done (bool_decide (ps ∈ chainActive ix), st).
Proof.
  intros Hanc.
  assert (ancestor_at ix pindexPrev (nHeight bs) ps bs) as Hat by done.
  pose proof (height_range ix WF _ _ Hbs) as Hrs.
  rewrite (check_above _ _ _ _ _ _ _ _ _ Hprev Hnz Hps Hbs Habove).
  destruct (trace_back_spec ix WF fuel _ _ (nHeight bs) Hprev
              above_parent_height ltac:(lia))
    as [(q & bq & Hq & ->)|[Hends _]].
  - destruct (ancestor_at_unique ix WF _ _ _ _ _ _ Hq Hat) as [-> ->].
    simpl. by rewrite (Contains_spec _ _ _ WF Hbs).
  - destruct (chain_ends_no_ancestor ix WF _ _ _ _ Hends Hat).
Qed.

(** The checkpoint block is on the canonical chain and the parent does not
    descend from it: rejected. *)
Lemma check_above_stranger :
  ps ∈ chainActive ix -> ~ ancestor ix pindexPrev ps ->
  CheckSyncCheckpoint fuel nd ix hashBlock pindexPrev st = Done (false, st).
Proof.
  intros Hin Hnot.
  pose proof (height_range ix WF _ _ Hbs) as Hrs.
  rewrite (check_above _ _ _ _ _ _ _ _ _ Hprev Hnz Hps Hbs Habove).
  destruct (trace_back_spec ix WF fuel _ _ (nHeight bs) Hprev
              above_parent_height ltac:(lia))
    as [(q & bq & (Ha & Hq & Hh) & ->)|[_ ->]]; [|done].
  simpl. rewrite (Contains_spec _ _ _ WF Hq). simpl.
  rewrite bool_decide_eq_false_2; [done|].
  intros Hqin.
  assert (q = ps) as -> by (eapply chain_same_height; eauto).
  done.
Qed.

End AboveCheckpoint.

(** With the active checkpoint's block on the canonical chain, a new block
    above the checkpoint's height passes [CheckSyncCheckpoint] exactly when
    its parent descends from (or is) the checkpoint block; the state is
    untouched either way. *)
Theorem check_accepts_descendants_only fuel nd ix hashBlock pindexPrev bPrev
    st ps bs :
  index_wf ix ->
  vBlocks ix !! pindexPrev = Some bPrev ->
  (Z.to_nat (nHeight bPrev) <= fuel)%nat ->
  hashSyncCheckpoint st <> uint256_zero ->
  mapBlockIndex ix !! hashSyncCheckpoint st = Some ps ->
  vBlocks ix !! ps = Some bs ->
  nHeight bs < int_add (nHeight bPrev) 1 ->
  ps ∈ chainActive ix ->
  (ancestor ix pindexPrev ps ->
     CheckSyncCheckpoint fuel nd ix hashBlock pindexPrev st = Done (true, st))
  /\ (~ ancestor ix pindexPrev ps ->
        CheckSyncCheckpoint fuel nd ix hashBlock pindexPrev st
          = Done (false, st)).
Proof.
  intros WF Hprev Hfuel Hnz Hps Hbs Habove Hin. split.
  - intros Hanc.
    rewrite (check_above_descendant fuel nd ix hashBlock pindexPrev bPrev st
               ps bs WF Hprev Hfuel Hnz Hps Hbs Habove Hanc).
    by rewrite (bool_decide_eq_true_2 _ Hin).
  - intros Hnot. by eapply check_above_stranger.
Qed.

Lemma check_accepts_descendants_only_witness :
  CheckSyncCheckpoint 2 (Sample.nd (-1) true) Sample.ix 104 4%positive
      (Sample.st0 101) = Done (true, Sample.st0 101)
  /\ CheckSyncCheckpoint 2 (Sample.nd (-1) true) Sample.ix 104 3%positive
       (Sample.st0 101) = Done (false, Sample.st0 101).
Proof.
  split.
  - apply (proj1 (check_accepts_descendants_only 2 (Sample.nd (-1) true)
                    Sample.ix 104 4%positive Sample.c (Sample.st0 101)
                    2%positive Sample.a sample_ix_wf eq_refl
                    ltac:(vm_compute; lia) ltac:(discriminate) eq_refl
                    eq_refl eq_refl ltac:(decide_elem))).
    eapply (ancestor_step _ _ Sample.c); [reflexivity | reflexivity |].
    constructor.
  - apply (proj2 (check_accepts_descendants_only 2 (Sample.nd (-1) true)
                    Sample.ix 104 3%positive Sample.b (Sample.st0 101)
                    2%positive Sample.a sample_ix_wf eq_refl
                    ltac:(vm_compute; lia) ltac:(discriminate) eq_refl
                    eq_refl eq_refl ltac:(decide_elem))).
    intros Hanc.
    pose proof (ancestor_same_height Sample.ix sample_ix_wf 3%positive
                  2%positive Sample.b Sample.a Hanc eq_refl eq_refl eq_refl).
    discriminate.
Defined.

(** With the active checkpoint's block off the canonical chain,
    [CheckSyncCheckpoint] rejects every new block above the checkpoint whose
    parent descends from (or is) the checkpoint block: the test is
    membership of the ancestor in the canonical chain, not identity with the
    checkpoint. *)
Theorem check_rejects_descendants_of_fork_checkpoint fuel nd ix hashBlock
    pindexPrev bPrev st ps bs :
  index_wf ix ->
  vBlocks ix !! pindexPrev = Some bPrev ->
  (Z.to_nat (nHeight bPrev) <= fuel)%nat ->
  hashSyncCheckpoint st <> uint256_zero ->
  mapBlockIndex ix !! hashSyncCheckpoint st = Some ps ->
  vBlocks ix !! ps = Some bs ->
  nHeight bs < int_add (nHeight bPrev) 1 ->
  ps ∉ chainActive ix ->
  ancestor ix pindexPrev ps ->
  CheckSyncCheckpoint fuel nd ix hashBlock pindexPrev st = Done (false, st).
Proof.
  intros WF Hprev Hfuel Hnz Hps Hbs Habove Hout Hanc.
  rewrite (check_above_descendant fuel nd ix hashBlock pindexPrev bPrev st
             ps bs WF Hprev Hfuel Hnz Hps Hbs Habove Hanc).
  by rewrite (bool_decide_eq_false_2 _ Hout).
Qed.

Lemma check_rejects_descendants_of_fork_checkpoint_witness :
  CheckSyncCheckpoint 1 (Sample.nd (-1) true) Sample.ix 105 3%positive
      (Sample.st0 102) = Done (false, Sample.st0 102).
Proof.
  apply (check_rejects_descendants_of_fork_checkpoint 1 (Sample.nd (-1) true)
           Sample.ix 105 3%positive Sample.b (Sample.st0 102) 3%positive
           Sample.b sample_ix_wf eq_refl ltac:(vm_compute; lia)
           ltac:(discriminate) eq_refl eq_refl eq_refl ltac:(decide_elem)).
  constructor.
Defined.

(** With the active checkpoint's block on the canonical chain, every block
    that extends the canonical chain above the checkpoint passes
    [CheckSyncCheckpoint]. *)
Theorem check_accepts_canonical_extension fuel nd ix hashBlock pindexPrev
    bPrev st ps bs :
  index_wf ix ->
  vBlocks ix !! pindexPrev = Some bPrev ->
  (Z.to_nat (nHeight bPrev) <= fuel)%nat ->
  hashSyncCheckpoint st <> uint256_zero ->
  mapBlockIndex ix !! hashSyncCheckpoint st = Some ps ->
  vBlocks ix !! ps = Some bs ->
  nHeight bs < int_add (nHeight bPrev) 1 ->
  ps ∈ chainActive ix ->
  pindexPrev ∈ chainActive ix ->
  CheckSyncCheckpoint fuel nd ix hashBlock pindexPrev st = Done (true, st).
Proof.
  intros WF Hprev Hfuel Hnz Hps Hbs Habove Hin Hpin.
  assert (ancestor ix pindexPrev ps) as Hanc.
  { assert (nHeight bs <= nHeight bPrev) as Hle
      by (eapply above_parent_height; eauto).
    apply list_elem_of_lookup in Hin as [j Hj].
    apply list_elem_of_lookup in Hpin as [i Hi].
    destruct (chain_entry _ _ _ WF Hj) as (bs' & Hbs' & Hhj & _).
    destruct (chain_entry _ _ _ WF Hi) as (bp' & Hbp' & Hhi & _).
    rewrite Hbs in Hbs'. injection Hbs' as <-.
    rewrite Hprev in Hbp'. injection Hbp' as <-.
    eapply chain_ancestor; eauto. lia. }
  rewrite (check_above_descendant fuel nd ix hashBlock pindexPrev bPrev st
             ps bs WF Hprev Hfuel Hnz Hps Hbs Habove Hanc).
  by rewrite (bool_decide_eq_true_2 _ Hin).
Qed.

Lemma check_accepts_canonical_extension_witness :
  CheckSyncCheckpoint 2 (Sample.nd (-1) true) Sample.ix 104 4%positive
      (Sample.st0 100) = Done (true, Sample.st0 100).
Proof.
  apply (check_accepts_canonical_extension 2 (Sample.nd (-1) true)
           Sample.ix 104 4%positive Sample.c (Sample.st0 100) 1%positive
           Sample.g sample_ix_wf eq_refl ltac:(vm_compute; lia)
           ltac:(discriminate) eq_refl eq_refl eq_refl ltac:(decide_elem)
           ltac:(decide_elem)).
Defined.

(** ** AutoSelectSyncCheckpoint for every depth *)

Lemma chain_filedb_sound ix : chain_filedb ix = true -> chain_filed ix.
Proof.
  unfold chain_filedb, chain_filed. rewrite forallb_forall.
  intros Hall p Hp. apply Hall. by apply list_elem_of_In.
Qed.

(** Started on the canonical chain, the backward search stays on it,
    whatever the depth and whether or not the sums wrap. *)
Lemma search_backward_on_chain ix depth tipHeight :
  index_wf ix ->
  forall i fuel p,
    chainActive ix !! i = Some p -> (i <= fuel)%nat ->
    exists k q, (k <= i)%nat /\ chainActive ix !! k = Some q
                /\ search_backward fuel ix depth tipHeight p = Done q.
Proof.
  intros WF. induction i as [|j IH]; intros fuel p Hi Hfuel.
  - destruct (chain_entry _ _ _ WF Hi) as (b & Hb & _ & Hprev).
    exists 0%nat, p. split; [lia|]. split; [done|].
    destruct fuel; simpl; rewrite (deref_Some _ _ _ Hb); simpl;
      by rewrite Hprev.
  - destruct (chain_entry _ _ _ WF Hi) as (b & Hb & _ & Hprev).
    assert (is_Some (chainActive ix !! j)) as [q Hq].
    { apply lookup_lt_is_Some. apply lookup_lt_Some in Hi. lia. }
    rewrite Hq in Hprev.
    destruct fuel as [|n]; [lia|].
    simpl. rewrite (deref_Some _ _ _ Hb). simpl. rewrite Hprev.
    destruct (_ <? _).
    + destruct (IH n q Hq ltac:(lia)) as (k & r & Hk & Hr & Hrun).
      exists k, r. split; [lia | done].
    + exists (S j), p. split; [lia | done].
Qed.

Lemma auto_select_unfold_on_chain fuel nd ix tip bTip :
  index_wf ix ->
  Tip ix = Some tip ->
  vBlocks ix !! tip = Some bTip ->
  (Z.to_nat (nHeight bTip) <= fuel)%nat ->
  exists p b,
    p ∈ chainActive ix /\ vBlocks ix !! p = Some b
    /\ 0 <= nHeight b <= nHeight bTip
    /\ AutoSelectSyncCheckpoint fuel nd ix = Done (phashBlock b).
Proof.
  intros WF Htip Hb Hfuel.
  pose proof (tip_lookup _ _ Htip) as Hlast.
  destruct (chain_entry _ _ _ WF Hlast) as (b' & Hb' & Hh & _).
  rewrite Hb in Hb'. injection Hb' as <-.
  destruct (search_backward_on_chain ix (to_int (checkpointdepth nd))
              (nHeight bTip) WF _ fuel tip Hlast ltac:(lia))
    as (k & q & Hk & Hq & Hrun).
  destruct (chain_entry _ _ _ WF Hq) as (bq & Hbq & Hhq & _).
  exists q, bq. split; [apply list_elem_of_lookup; eauto|].
  split; [done|]. split; [lia|].
  unfold AutoSelectSyncCheckpoint. rewrite Htip, (deref_Some _ _ _ Hb).
  simpl. rewrite Hrun. simpl. by rewrite (deref_Some _ _ _ Hbq).
Qed.

(** For every configured depth, in range or not, positive or not, the hash
    [AutoSelectSyncCheckpoint] returns is that of a block of the canonical
    chain no higher than the tip: it never selects a block of a fork. *)
Theorem auto_select_on_chain fuel nd ix tip bTip :
  index_wf ix ->
  Tip ix = Some tip ->
  vBlocks ix !! tip = Some bTip ->
  (Z.to_nat (nHeight bTip) <= fuel)%nat ->
  exists p b,
    p ∈ chainActive ix /\ vBlocks ix !! p = Some b
    /\ 0 <= nHeight b <= nHeight bTip
    /\ AutoSelectSyncCheckpoint fuel nd ix = Done (phashBlock b).
Proof.
  intros WF Htip Hb Hfuel.
  pose proof (tip_lookup _ _ Htip) as Hlast.
  destruct (chain_entry _ _ _ WF Hlast) as (b' & Hb' & Hh & _).
  rewrite Hb in Hb'. injection Hb' as <-.
  destruct (search_backward_on_chain ix (to_int (checkpointdepth nd))
              (nHeight bTip) WF _ fuel tip Hlast ltac:(lia))
    as (k & q & Hk & Hq & Hrun).
  destruct (chain_entry _ _ _ WF Hq) as (bq & Hbq & Hhq & _).
  exists q, bq. split; [apply list_elem_of_lookup; eauto|].
  split; [done|]. split; [lia|].
  unfold AutoSelectSyncCheckpoint. rewrite Htip, (deref_Some _ _ _ Hb).
  simpl. rewrite Hrun. simpl. by rewrite (deref_Some _ _ _ Hbq).
Qed.

Lemma auto_select_on_chain_witness :
  exists p b,
    p ∈ chainActive Sample.ix /\ vBlocks Sample.ix !! p = Some b
    /\ 0 <= nHeight b <= 2
    /\ AutoSelectSyncCheckpoint 2 (Sample.nd 4294967297 true) Sample.ix
       = Done (phashBlock b).
Proof.
  apply (auto_select_on_chain 2 (Sample.nd 4294967297 true) Sample.ix
           4%positive Sample.c sample_ix_wf eq_refl eq_refl
           ltac:(vm_compute; lia)).
Defined.

(** With a depth of zero or below (the default is [-1]), down to [INT_MIN],
    [AutoSelectSyncCheckpoint] returns the hash of the tip: the function
    itself has no manual mode, and needs no loop step. *)
Theorem auto_select_nonpositive_depth fuel nd ix tip bTip :
  index_wf ix ->
  Tip ix = Some tip ->
  vBlocks ix !! tip = Some bTip ->
  INT_MIN <= checkpointdepth nd <= 0 ->
  AutoSelectSyncCheckpoint fuel nd ix = Done (phashBlock bTip).
Proof.
  intros WF Htip Hb Hd.
  pose proof (height_range ix WF _ _ Hb) as Hr.
  unfold AutoSelectSyncCheckpoint. rewrite Htip, (deref_Some _ _ _ Hb).
  simpl.
  assert (search_backward fuel ix (to_int (checkpointdepth nd))
            (nHeight bTip) tip = Done tip) as ->.
  { rewrite to_int_exact by (unfold INT_MIN, INT_MAX in *; lia).
    destruct fuel; simpl; rewrite (deref_Some _ _ _ Hb); simpl;
      (destruct (pprev bTip); [|done]);
      rewrite int_add_exact by (unfold INT_MIN, INT_MAX in *; lia);
      destruct (Z.ltb_spec (nHeight bTip)
                  (nHeight bTip + checkpointdepth nd)); done || lia. }
  simpl. by rewrite (deref_Some _ _ _ Hb).
Qed.

Lemma auto_select_nonpositive_depth_witness :
  AutoSelectSyncCheckpoint 0 (Sample.nd (-1) true) Sample.ix = Done 103.
Proof.
  apply (auto_select_nonpositive_depth 0 (Sample.nd (-1) true) Sample.ix
           4%positive Sample.c sample_ix_wf eq_refl eq_refl).
  vm_compute. split; discriminate.
Defined.

(** [ValidateSyncCheckpoint] for a candidate above the active checkpoint. *)
Lemma validate_above fuel ix st cand ps bs pc bc :
  mapBlockIndex ix !! hashSyncCheckpoint st = Some ps ->
  vBlocks ix !! ps = Some bs ->
  mapBlockIndex ix !! cand = Some pc ->
  vBlocks ix !! pc = Some bc ->
  nHeight bs < nHeight bc ->
  ValidateSyncCheckpoint fuel ix cand st =
    r ← trace_back fuel ix pc (nHeight bs);
    match r with
    | None => Done (false, st)
    | Some pindex =>
        b ← deref ix pindex;
        if negb (phashBlock b =? hashSyncCheckpoint st)
        then Done (false, set_hashInvalidCheckpoint cand st)
        else Done (true, st)
    end.
Proof.
  intros Hps Hbs Hpc Hbc Hlt. unfold ValidateSyncCheckpoint. resolve_index.
  destruct (Z.leb_spec (nHeight bc) (nHeight bs)); [lia | done].
Qed.

(** The checkpoint the master selects automatically never conflicts with an
    active checkpoint on the canonical chain: with every block of the chain
    filed under its hash, [ValidateSyncCheckpoint] of the auto-selected hash
    returns true when the selected block is higher than the active one and
    false otherwise, and in neither case writes [hashInvalidCheckpoint]. *)
Theorem auto_selected_checkpoint_validates fuel nd ix st tip bTip ps bs :
  index_wf ix ->
  chain_filed ix ->
  Tip ix = Some tip ->
  vBlocks ix !! tip = Some bTip ->
  (Z.to_nat (nHeight bTip) <= fuel)%nat ->
  mapBlockIndex ix !! hashSyncCheckpoint st = Some ps ->
  vBlocks ix !! ps = Some bs ->
  ps ∈ chainActive ix ->
  exists h p b,
    AutoSelectSyncCheckpoint fuel nd ix = Done h
    /\ mapBlockIndex ix !! h = Some p /\ vBlocks ix !! p = Some b
    /\ ValidateSyncCheckpoint fuel ix h st
       = Done (bool_decide (nHeight bs < nHeight b), st).
Proof.
  intros WF Hfiled Htip Hb Hfuel Hps Hbs Hin.
  destruct (auto_select_unfold_on_chain fuel nd ix tip bTip WF Htip Hb Hfuel)
    as (p & b & Hpin & Hpb & Hrange & Hrun).
  exists (phashBlock b), p, b. split; [done|].
  pose proof (Hfiled p Hpin) as Hf. unfold filed_wfb in Hf.
  rewrite Hpb in Hf. apply bool_decide_eq_true in Hf.
  split; [done|]. split; [done|].
  destruct (decide (nHeight bs < nHeight b)) as [Hlt|Hge].
  - rewrite (bool_decide_eq_true_2 _ Hlt).
    rewrite (validate_above _ _ _ _ _ _ _ _ Hps Hbs Hf Hpb Hlt).
    assert (ancestor_at ix p (nHeight bs) ps bs) as Hat.
    { repeat split; [|done].
      apply list_elem_of_lookup in Hin as [j Hj].
      apply list_elem_of_lookup in Hpin as [i Hi].
      destruct (chain_entry _ _ _ WF Hj) as (bs' & Hbs' & Hhj & _).
      destruct (chain_entry _ _ _ WF Hi) as (b' & Hb' & Hhi & _).
      rewrite Hbs in Hbs'. injection Hbs' as <-.
      rewrite Hpb in Hb'. injection Hb' as <-.
      eapply chain_ancestor; eauto. lia. }
    pose proof (height_range ix WF _ _ Hbs) as Hrs.
    destruct (trace_back_spec ix WF fuel p b (nHeight bs) Hpb ltac:(lia)
                ltac:(lia)) as [(q & bq & Hq & ->)|[Hends _]].
    + destruct (ancestor_at_unique ix WF _ _ _ _ _ _ Hq Hat) as [-> ->].
      simpl. rewrite (deref_Some _ _ _ Hbs). simpl.
      destruct (map_entry ix WF _ _ Hps) as (bs' & Hbs' & Hhash).
      rewrite Hbs in Hbs'. injection Hbs' as <-.
      destruct (Z.eqb_spec (phashBlock bs) (hashSyncCheckpoint st)); done.
    + destruct (chain_ends_no_ancestor ix WF _ _ _ _ Hends Hat).
  - rewrite (bool_decide_eq_false_2 _ Hge).
    unfold ValidateSyncCheckpoint. resolve_index.
    destruct (Z.leb_spec (nHeight b) (nHeight bs)); [|lia].
    rewrite (Contains_spec _ _ _ WF Hpb). simpl.
    by rewrite (bool_decide_eq_true_2 _ Hpin).
Qed.

Lemma sample_chain_filed : chain_filed Sample.ix.
Proof. apply chain_filedb_sound. vm_compute. reflexivity. Qed.

Lemma auto_selected_checkpoint_validates_witness :
  exists h p b,
    AutoSelectSyncCheckpoint 2 (Sample.nd 1 true) Sample.ix = Done h
    /\ mapBlockIndex Sample.ix !! h = Some p
    /\ vBlocks Sample.ix !! p = Some b
    /\ ValidateSyncCheckpoint 2 Sample.ix h (Sample.st0 100)
       = Done (bool_decide (0 < nHeight b), Sample.st0 100).
Proof.
  apply (auto_selected_checkpoint_validates 2 (Sample.nd 1 true) Sample.ix
           (Sample.st0 100) 4%positive Sample.c 1%positive Sample.g
           sample_ix_wf sample_chain_filed eq_refl eq_refl
           ltac:(vm_compute; lia) eq_refl eq_refl ltac:(decide_elem)).
Defined.

(** ** ResetSyncCheckpoint *)

(** [ResetSyncCheckpoint] returns the result of the one database write it
    attempts.  With the hardened checkpoint's block missing from the index it
    first puts the hardened hash, with a null message, in the pending slot,
    and that replacement stands even when the write then fails; the write is
    of the genesis hash.  With the block in the index the pending slot is
    left alone, and the hash written is the hardened one when the block is on
    the canonical chain and the genesis hash when it is not. *)
Theorem reset_cases nd ix st :
  index_wf ix ->
  let hardened := hashLatestHardened nd in
  let genesis := hashGenesisBlock nd in
  (mapBlockIndex ix !! hardened = None ->
     exists st',
       ResetSyncCheckpoint nd ix st = Done (txdbWrite nd genesis, st')
       /\ hashPendingCheckpoint st' = hardened
       /\ checkpointMessagePending st' = SetNull
       /\ hashSyncCheckpoint st'
          = (if txdbWrite nd genesis then genesis else hashSyncCheckpoint st))
  /\ (forall p,
        mapBlockIndex ix !! hardened = Some p -> p ∈ chainActive ix ->
        ResetSyncCheckpoint nd ix st
          = Done (txdbWrite nd hardened,
                  if txdbWrite nd hardened then commit_checkpoint hardened st
                  else st))
  /\ (forall p,
        mapBlockIndex ix !! hardened = Some p -> p ∉ chainActive ix ->
        ResetSyncCheckpoint nd ix st
          = Done (txdbWrite nd genesis,
                  if txdbWrite nd genesis then commit_checkpoint genesis st
                  else st)).
Proof.
  intros WF hardened genesis. subst hardened genesis. split; [|split].
  - intros Hnone. unfold ResetSyncCheckpoint.
    rewrite (count_None _ _ Hnone). simpl. unfold WriteSyncCheckpoint.
    destruct (txdbWrite nd (hashGenesisBlock nd)); simpl; eauto 10.
  - intros p Hp Hin. destruct (map_entry ix WF _ _ Hp) as (b & Hb & _).
    unfold ResetSyncCheckpoint. rewrite (count_Some _ _ _ Hp). simpl.
    rewrite (at_hash_Some _ _ _ Hp). simpl.
    rewrite (Contains_spec _ _ _ WF Hb). simpl.
    rewrite (bool_decide_eq_true_2 _ Hin). unfold WriteSyncCheckpoint.
    by destruct (txdbWrite nd (hashLatestHardened nd)).
  - intros p Hp Hout. destruct (map_entry ix WF _ _ Hp) as (b & Hb & _).
    unfold ResetSyncCheckpoint. rewrite (count_Some _ _ _ Hp). simpl.
    rewrite (at_hash_Some _ _ _ Hp). simpl.
    rewrite (Contains_spec _ _ _ WF Hb). simpl.
    rewrite (bool_decide_eq_false_2 _ Hout). unfold WriteSyncCheckpoint.
    by destruct (txdbWrite nd (hashGenesisBlock nd)).
Qed.

Lemma reset_cases_witness :
  ResetSyncCheckpoint (Sample.nd_hardened 102 true) Sample.ix (Sample.st0 103)
    = Done (true, commit_checkpoint 100 (Sample.st0 103))
  /\ ResetSyncCheckpoint (Sample.nd_hardened 101 true) Sample.ix
       (Sample.st0 103)
     = Done (true, commit_checkpoint 101 (Sample.st0 103)).
Proof.
  split.
  - apply (proj2 (proj2 (reset_cases (Sample.nd_hardened 102 true) Sample.ix
                           (Sample.st0 103) sample_ix_wf))
             3%positive eq_refl ltac:(decide_elem)).
  - apply (proj1 (proj2 (reset_cases (Sample.nd_hardened 101 true) Sample.ix
                           (Sample.st0 103) sample_ix_wf))
             2%positive eq_refl ltac:(decide_elem)).
Defined.

(** A hardened checkpoint that the reset had to leave pending is promoted
    without a word to the peers: once its block is in the index [ix'], on
    the canonical chain and a descendant of the genesis checkpoint the reset
    installed, [AcceptPendingSyncCheckpoint] makes it the active checkpoint,
    the accepted message becomes the null message, and nothing is relayed,
    however many peers are connected. *)
Theorem reset_pending_promoted_silently fuel nd ix ix' vNodes st p :
  index_wf ix' ->
  let hardened := hashLatestHardened nd in
  let st1 :=
    commit_checkpoint (hashGenesisBlock nd) (set_pending hardened SetNull st) in
  hardened <> uint256_zero ->
  mapBlockIndex ix !! hardened = None ->
  txdbWrite nd (hashGenesisBlock nd) = true ->
  txdbWrite nd hardened = true ->
  mapBlockIndex ix' !! hardened = Some p ->
  p ∈ chainActive ix' ->
  ValidateSyncCheckpoint fuel ix' hardened st1 = Done (true, st1) ->
  ResetSyncCheckpoint nd ix st = Done (true, st1)
  /\ exists st2,
       AcceptPendingSyncCheckpoint_relay fuel nd ix' vNodes st1
         = Done (true, st2, [])
       /\ hashSyncCheckpoint st2 = hardened
       /\ checkpointMessage st2 = SetNull
       /\ hashPendingCheckpoint st2 = uint256_zero.
Proof.
  intros WF hardened st1 Hnz Hnone Hwg Hwh Hp Hin Hv. split.
  - unfold ResetSyncCheckpoint. fold hardened.
    rewrite (count_None _ _ Hnone). simpl. unfold WriteSyncCheckpoint.
    by rewrite Hwg.
  - destruct (map_entry ix' WF _ _ Hp) as (b & Hb & _).
    unfold AcceptPendingSyncCheckpoint_relay.
    rewrite (accept_present fuel nd ix' st1 p b WF Hnz Hp Hb).
    change (hashPendingCheckpoint st1) with hardened.
    rewrite Hv. simpl.
    rewrite (bool_decide_eq_true_2 _ Hin). simpl.
    fold hardened. rewrite Hwh. simpl. eauto.
Qed.

Lemma reset_pending_promoted_silently_witness :
  exists st1 st2,
    ResetSyncCheckpoint (Sample.nd_hardened 104 true) Sample.ix
        (Sample.st0 103) = Done (true, st1)
    /\ AcceptPendingSyncCheckpoint_relay 3 (Sample.nd_hardened 104 true)
         Sample.ix_next [1%nat; 2%nat] st1 = Done (true, st2, [])
    /\ hashSyncCheckpoint st2 = 104.
Proof.
  destruct (reset_pending_promoted_silently 3 (Sample.nd_hardened 104 true)
              Sample.ix Sample.ix_next [1%nat; 2%nat] (Sample.st0 103)
              5%positive sample_ix_next_wf ltac:(discriminate) eq_refl
              eq_refl eq_refl eq_refl ltac:(decide_elem) eq_refl)
    as (Hreset & st2 & Hacc & Hact & _).
  eexists _, st2. split; [exact Hreset|]. split; [exact Hacc | exact Hact].
Defined.

(** ** SendSyncCheckpoint *)

Section Sending.
Context `{Primitives} `{MasterKey}.

(** [SendSyncCheckpoint] relays only what it has accepted itself.  When it
    returns true, every connected peer is handed the same message, this
    message is the accepted one and its hash is the new active checkpoint,
    a strict descendant of the old.  When it returns false nothing is
    relayed and the active checkpoint and the database value are as
    before. *)
Theorem send_relays_only_accepted fuel nd ix vNodes key hash st :
  index_wf ix ->
  (forall st' out,
     SendSyncCheckpoint fuel nd ix vNodes key hash st = Done (true, st', out) ->
     out = relay_to_all vNodes (checkpointMessage st')
     /\ hashCheckpoint (checkpointMessage st') = hashSyncCheckpoint st'
     /\ Unserialize (Serialize hash) = Some (hashSyncCheckpoint st')
     /\ dbSyncCheckpoint st' = Some (hashSyncCheckpoint st')
     /\ descends_strictly ix (hashSyncCheckpoint st') (hashSyncCheckpoint st))
  /\ (forall st' out,
        SendSyncCheckpoint fuel nd ix vNodes key hash st
          = Done (false, st', out) ->
        out = []
        /\ hashSyncCheckpoint st' = hashSyncCheckpoint st
        /\ dbSyncCheckpoint st' = dbSyncCheckpoint st).
Proof.
  intros WF. split.
  - intros st' out Hs. unfold SendSyncCheckpoint in Hs.
    destruct (bool_decide (key = EmptyString)); [done|].
    destruct (DecodeSecret key) as [k|]; [|done].
    destruct (Sign k (Hash (Serialize hash))) as [sig|]; [|done].
    unfold ProcessSyncCheckpoint, CheckSignature in Hs. simpl in Hs.
    destruct (signature_verifies nd _); [|done]. simpl in Hs.
    destruct (Unserialize (Serialize hash)) as [h|]; [|done]. simpl in Hs.
    destruct (count ix h); [|done]. simpl in Hs.
    destruct (ValidateSyncCheckpoint fuel ix h st) as [[[|] st1]|] eqn:Hv;
      simpl in Hs; [|done|done].
    destruct (validate_true_descends _ _ _ _ _ WF Hv) as [Hd ->].
    unfold WriteSyncCheckpoint in Hs.
    destruct (txdbWrite nd h); simpl in Hs; [|done].
    injection Hs as <- <-. simpl. repeat split; done.
  - intros st' out Hs. unfold SendSyncCheckpoint in Hs.
    destruct (bool_decide (key = EmptyString)); [by injection Hs as <- <-|].
    destruct (DecodeSecret key) as [k|]; [|by injection Hs as <- <-].
    destruct (Sign k (Hash (Serialize hash))) as [sig|];
      [|by injection Hs as <- <-].
    unfold ProcessSyncCheckpoint, CheckSignature in Hs. simpl in Hs.
    destruct (signature_verifies nd _); simpl in Hs;
      [|by injection Hs as <- <-].
    destruct (Unserialize (Serialize hash)) as [h|]; [|done]. simpl in Hs.
    destruct (count ix h); simpl in Hs; [|by injection Hs as <- <-].
    destruct (ValidateSyncCheckpoint fuel ix h st) as [[valid st1]|] eqn:Hv;
      simpl in Hs; [|done].
    destruct (validate_frame _ _ _ _ _ _ Hv) as [[-> ->]|[-> Hst1]].
    + unfold WriteSyncCheckpoint in Hs.
      destruct (txdbWrite nd h); simpl in Hs; [done|].
      by injection Hs as <- <-.
    + simpl in Hs. injection Hs as <- <-. by destruct Hst1 as [->| ->].
Qed.

(** A master whose key works: the configured private key decodes, signs the
    serialised checkpoint, the signature verifies under the public key of
    the consensus parameters, and the serialisation decodes to the hash. *)
Section WorkingKey.
Context (nd : Node) (key : string) (secret sig : list byte) (hash : uint256).
Hypothesis Hkey : key <> EmptyString.
Hypothesis Hdecode : DecodeSecret key = Some secret.
Hypothesis Hsign : Sign secret (Hash (Serialize hash)) = Some sig.
Hypothesis Hverify :
  Verify (ParseHex (checkpointPubKey nd)) (Hash (Serialize hash)) sig = true.
Hypothesis Hround : Unserialize (Serialize hash) = Some hash.

Lemma send_signed fuel ix vNodes st :
  SendSyncCheckpoint fuel nd ix vNodes key hash st =
    '(processed, checkpoint, st') ←
      ProcessSyncCheckpoint fuel nd ix (mkMsg hash (Serialize hash) sig) st;
    if negb processed then Done (false, st', [])
    else Done (true, st', relay_to_all vNodes checkpoint).
Proof.
  unfold SendSyncCheckpoint.
  rewrite (bool_decide_eq_false_2 _ Hkey), Hdecode, Hsign. done.
Qed.

Lemma send_process fuel ix st :
  ProcessSyncCheckpoint fuel nd ix (mkMsg hash (Serialize hash) sig) st =
    let this' := mkMsg hash (Serialize hash) sig in
    if negb (count ix hash) then Done (false, this', set_pending hash this' st)
    else
      '(valid, st1) ← ValidateSyncCheckpoint fuel ix hash st;
      if negb valid then Done (false, this', st1)
      else
        let '(written, st2) := WriteSyncCheckpoint nd hash st1 in
        if negb written then Done (false, this', st2)
        else Done (true, this',
                   set_pending uint256_zero SetNull
                     (set_checkpointMessage this' st2)).
Proof. by apply process_signed. Qed.

End WorkingKey.
End Sending.

(** A master with a working key that sends a checkpoint for a block it does
    not have reports failure and relays nothing, yet the checkpoint is now in
    its pending slot, signed message included, and the active checkpoint is
    as before. *)
Theorem send_unknown_block_left_pending `{Primitives} `{MasterKey}
    fuel nd ix vNodes key secret sig hash st :
  key <> EmptyString ->
  DecodeSecret key = Some secret ->
  Sign secret (Hash (Serialize hash)) = Some sig ->
  Verify (ParseHex (checkpointPubKey nd)) (Hash (Serialize hash)) sig = true ->
  Unserialize (Serialize hash) = Some hash ->
  mapBlockIndex ix !! hash = None ->
  exists st',
    SendSyncCheckpoint fuel nd ix vNodes key hash st = Done (false, st', [])
    /\ hashPendingCheckpoint st' = hash
    /\ checkpointMessagePending st' = mkMsg hash (Serialize hash) sig
    /\ hashSyncCheckpoint st' = hashSyncCheckpoint st.
Proof.
  intros Hkey Hdecode Hsign Hverify Hround Hnone.
  rewrite (send_signed nd key secret sig hash Hkey Hdecode Hsign).
  rewrite (send_process nd sig hash Hverify Hround). simpl.
  rewrite (count_None _ _ Hnone). simpl. eauto.
Qed.

Lemma send_unknown_block_left_pending_witness :
  exists st',
    @SendSyncCheckpoint Sample.prims Sample.master 0 (Sample.nd (-1) true)
        Sample.ix [1%nat] "key" 104 (Sample.st0 100) = Done (false, st', [])
    /\ hashPendingCheckpoint st' = 104.
Proof.
  destruct (@send_unknown_block_left_pending Sample.prims Sample.master 0
              (Sample.nd (-1) true) Sample.ix [1%nat] "key" [x2a] [x01] 104
              (Sample.st0 100) ltac:(discriminate) eq_refl eq_refl eq_refl
              eq_refl eq_refl)
    as (st' & Hrun & Hpend & _).
  exists st'. split; [exact Hrun | exact Hpend].
Defined.

(** A master cannot send the checkpoint that is already active: the hash is
    measured against itself as an older checkpoint, so
    [SendSyncCheckpoint] returns false and relays nothing, leaving the state
    untouched when the block is on the canonical chain and recording the
    active hash in [hashInvalidCheckpoint] when it is not. *)
Theorem send_active_checkpoint_refused `{Primitives} `{MasterKey}
    fuel nd ix vNodes key secret sig st p :
  index_wf ix ->
  let hash := hashSyncCheckpoint st in
  key <> EmptyString ->
  DecodeSecret key = Some secret ->
  Sign secret (Hash (Serialize hash)) = Some sig ->
  Verify (ParseHex (checkpointPubKey nd)) (Hash (Serialize hash)) sig = true ->
  Unserialize (Serialize hash) = Some hash ->
  mapBlockIndex ix !! hash = Some p ->
  SendSyncCheckpoint fuel nd ix vNodes key hash st =
    Done (false,
          if bool_decide (p ∈ chainActive ix) then st
          else set_hashInvalidCheckpoint hash st,
          []).
Proof.
  intros WF hash Hkey Hdecode Hsign Hverify Hround Hp.
  destruct (map_entry ix WF _ _ Hp) as (b & Hb & _).
  rewrite (send_signed nd key secret sig hash Hkey Hdecode Hsign).
  rewrite (send_process nd sig hash Hverify Hround). simpl.
  rewrite (count_Some _ _ _ Hp). simpl.
  unfold ValidateSyncCheckpoint. fold hash. resolve_index.
  destruct (Z.leb_spec (nHeight b) (nHeight b)); [|lia].
  rewrite (Contains_spec _ _ _ WF Hb). simpl.
  by destruct (bool_decide (p ∈ chainActive ix)).
Qed.

Lemma send_active_checkpoint_refused_witness :
  @SendSyncCheckpoint Sample.prims Sample.master 0 (Sample.nd (-1) true)
      Sample.ix [1%nat] "key" 101 (Sample.st0 101)
    = Done (false, Sample.st0 101, [])
  /\ @SendSyncCheckpoint Sample.prims Sample.master 0 (Sample.nd (-1) true)
       Sample.ix [1%nat] "key" 102 (Sample.st0 102)
     = Done (false, set_hashInvalidCheckpoint 102 (Sample.st0 102), []).
Proof.
  split.
  - apply (@send_active_checkpoint_refused Sample.prims Sample.master 0
             (Sample.nd (-1) true) Sample.ix [1%nat] "key" [x2a] [x01]
             (Sample.st0 101) 2%positive sample_ix_wf ltac:(discriminate)
             eq_refl eq_refl eq_refl eq_refl eq_refl).
  - apply (@send_active_checkpoint_refused Sample.prims Sample.master 0
             (Sample.nd (-1) true) Sample.ix [1%nat] "key" [x2a] [x01]
             (Sample.st0 102) 3%positive sample_ix_wf ltac:(discriminate)
             eq_refl eq_refl eq_refl eq_refl eq_refl).
Defined.

Lemma send_relays_only_accepted_witness :
  @SendSyncCheckpoint Sample.prims Sample.master 2 (Sample.nd (-1) true)
      Sample.ix [1%nat; 2%nat] "key" 103 (Sample.st0 100)
    = Done (true,
            mkState 103 uint256_zero Sample.msg103 SetNull uint256_zero
              (Some 103),
            [(1%nat, Sample.msg103); (2%nat, Sample.msg103)])
  /\ descends_strictly Sample.ix 103 100.
Proof.
  split; [reflexivity|].
  apply (proj1 (@send_relays_only_accepted Sample.prims Sample.master 2
                  (Sample.nd (-1) true) Sample.ix [1%nat; 2%nat] "key" 103
                  (Sample.st0 100) sample_ix_wf)
           (mkState 103 uint256_zero Sample.msg103 SetNull uint256_zero
              (Some 103))
           [(1%nat, Sample.msg103); (2%nat, Sample.msg103)] eq_refl).
Defined.

(** Without a usable key nothing happens: with an empty
    [strMasterPrivKey], one that does not decode, or a signing failure,
    [SendSyncCheckpoint] returns false, leaves the whole state as it was
    (the pending slot too) and relays nothing. *)
Theorem send_without_key `{Primitives} `{MasterKey}
    fuel nd ix vNodes key hash st :
  key = EmptyString
  \/ DecodeSecret key = None
  \/ (exists secret, DecodeSecret key = Some secret
                     /\ Sign secret (Hash (Serialize hash)) = None) ->
  SendSyncCheckpoint fuel nd ix vNodes key hash st = Done (false, st, []).
Proof.
  intros Hbad. unfold SendSyncCheckpoint.
  destruct (bool_decide (key = EmptyString)) eqn:He; [done|].
  apply bool_decide_eq_false in He.
  destruct Hbad as [->|[->|(secret & -> & ->)]]; done.
Qed.

Lemma send_without_key_witness :
  @SendSyncCheckpoint Sample.prims Sample.master 2 (Sample.nd (-1) true)
      Sample.ix [1%nat] "wrong" 103 (Sample.st0 100)
    = Done (false, Sample.st0 100, []).
Proof.
  apply (@send_without_key Sample.prims Sample.master 2 (Sample.nd (-1) true)
           Sample.ix [1%nat] "wrong" 103 (Sample.st0 100)).
  right. left. reflexivity.
Defined.

(** ** CheckCheckpointPubKey *)

(** [CheckCheckpointPubKey] resets the checkpoint only on a key change and
    only behind the two database calls: a call that changes any checkpoint
    variable found a stored key other than the master public key (or none),
    had the new key written and synced, and leaves the master public key
    stored.  With the stored key equal to the master public key the call
    returns true and changes nothing; with the key write failing it returns
    false and changes nothing, the stored key included. *)
Theorem pubkey_check_resets_behind_writes nd ix keyWritten synced stored st :
  (forall r stored' st',
     CheckCheckpointPubKey nd ix keyWritten synced stored st
       = Done (r, stored', st') ->
     st' <> st ->
     stored <> Some (checkpointPubKey nd)
     /\ keyWritten = true /\ synced = true
     /\ stored' = Some (checkpointPubKey nd)
     /\ ResetSyncCheckpoint nd ix st = Done (r, st'))
  /\ (stored = Some (checkpointPubKey nd) ->
        CheckCheckpointPubKey nd ix keyWritten synced stored st
          = Done (true, stored, st))
  /\ (stored <> Some (checkpointPubKey nd) -> keyWritten = false ->
        CheckCheckpointPubKey nd ix keyWritten synced stored st
          = Done (false, stored, st)).
Proof.
  split; [|split].
  - intros r stored' st' Hc Hne. unfold CheckCheckpointPubKey in Hc.
    case_bool_decide as Hk; [by injection Hc as <- <- <-|].
    destruct keyWritten; simpl in Hc; [|by injection Hc as <- <- <-].
    destruct synced; simpl in Hc; [|by injection Hc as <- <- <-].
    destruct (ResetSyncCheckpoint nd ix st) as [[reset st1]|]; [|done].
    simpl in Hc. injection Hc as <- <- <-. done.
  - intros Hk. unfold CheckCheckpointPubKey.
    by rewrite (bool_decide_eq_true_2 _ Hk).
  - intros Hk ->. unfold CheckCheckpointPubKey.
    by rewrite (bool_decide_eq_false_2 _ Hk).
Qed.

Lemma pubkey_check_resets_behind_writes_witness :
  CheckCheckpointPubKey (Sample.nd (-1) true) Sample.ix false false
      (Some "02ab"%string) (Sample.st0 103)
    = Done (true, Some "02ab"%string, Sample.st0 103)
  /\ CheckCheckpointPubKey (Sample.nd (-1) true) Sample.ix false true
       (Some "03cd"%string) (Sample.st0 103)
     = Done (false, Some "03cd"%string, Sample.st0 103)
  /\ ResetSyncCheckpoint (Sample.nd (-1) true) Sample.ix (Sample.st0 103)
     = Done (true, commit_checkpoint 100 (Sample.st0 103)).
Proof.
  pose proof (pubkey_check_resets_behind_writes (Sample.nd (-1) true)
                Sample.ix false false (Some "02ab"%string) (Sample.st0 103))
    as (_ & Hsame & _).
  pose proof (pubkey_check_resets_behind_writes (Sample.nd (-1) true)
                Sample.ix false true (Some "03cd"%string) (Sample.st0 103))
    as (_ & _ & Hfail).
  pose proof (pubkey_check_resets_behind_writes (Sample.nd (-1) true)
                Sample.ix true true (Some "03cd"%string) (Sample.st0 103))
    as (Hreset & _ & _).
  split; [exact (Hsame eq_refl)|].
  split; [exact (Hfail ltac:(discriminate) eq_refl)|].
  apply (Hreset true (Some "02ab"%string)
           (commit_checkpoint 100 (Sample.st0 103)) eq_refl).
  discriminate.
Defined.

(** The reset is tried once.  After a call that found the master public
    key stored or got it written, the next call, whatever the database does
    then, returns true and changes nothing, because the key now reads back
    equal.  This covers a first call that failed after the key write, on
    [Sync] or on the write of the checkpoint: the checkpoint is then never
    reset for that key change. *)
Theorem pubkey_reset_not_retried nd ix keyWritten synced keyWritten' synced'
    stored st r stored' st' :
  CheckCheckpointPubKey nd ix keyWritten synced stored st
    = Done (r, stored', st') ->
  stored = Some (checkpointPubKey nd) \/ keyWritten = true ->
  stored' = Some (checkpointPubKey nd)
  /\ CheckCheckpointPubKey nd ix keyWritten' synced' stored' st'
     = Done (true, stored', st').
Proof.
  intros Hc Hwritten.
  assert (stored' = Some (checkpointPubKey nd)) as Hk.
  { unfold CheckCheckpointPubKey in Hc.
    case_bool_decide as Hs; [by injection Hc as <- <- <-|].
    destruct Hwritten as [?| ->]; [done|]. simpl in Hc.
    destruct synced; simpl in Hc; [|by injection Hc as <- <- <-].
    destruct (ResetSyncCheckpoint nd ix st) as [[reset st1]|]; [|done].
    simpl in Hc. by injection Hc as <- <- <-. }
  split; [done|]. unfold CheckCheckpointPubKey.
  by rewrite (bool_decide_eq_true_2 _ Hk).
Qed.

Lemma pubkey_reset_not_retried_witness :
  CheckCheckpointPubKey (Sample.nd (-1) true) Sample.ix true false
      (Some "03cd"%string) (Sample.st0 103)
    = Done (false, Some "02ab"%string, Sample.st0 103)
  /\ CheckCheckpointPubKey (Sample.nd (-1) true) Sample.ix true true
       (Some "02ab"%string) (Sample.st0 103)
     = Done (true, Some "02ab"%string, Sample.st0 103).
Proof.
  split; [reflexivity|].
  apply (pubkey_reset_not_retried (Sample.nd (-1) true) Sample.ix true false
           true true (Some "03cd"%string) (Sample.st0 103) false
           (Some "02ab"%string) (Sample.st0 103) eq_refl).
  by right.
Defined.

(** ** The invalid-checkpoint marker is never cleared *)

Lemma validate_marker fuel ix cand st b st' :
  ValidateSyncCheckpoint fuel ix cand st = Done (b, st') ->
  st' = st
  \/ (st' = set_hashInvalidCheckpoint cand st /\ b = false
      /\ count ix cand = true).
Proof.
  unfold ValidateSyncCheckpoint. intros Hv.
  destruct (count ix (hashSyncCheckpoint st)); simpl in Hv;
    [|injection Hv as <- <-; by left].
  destruct (count ix cand) eqn:Hc; simpl in Hv;
    [|injection Hv as <- <-; by left].
  split_branches Hv; eauto.
Qed.

(** No operation resets [hashInvalidCheckpoint]: after
    [ProcessSyncCheckpoint], [AcceptPendingSyncCheckpoint],
    [CheckSyncCheckpoint] or [ResetSyncCheckpoint] the marker is what it
    was, or it has just been set by a failed validation to the hash under
    validation, which is the hash of a block in the index. *)
Theorem invalid_marker_never_cleared `{Primitives} fuel nd ix st :
  (forall this b this' st',
     ProcessSyncCheckpoint fuel nd ix this st = Done (b, this', st') ->
     hashInvalidCheckpoint st' = hashInvalidCheckpoint st
     \/ (b = false /\ hashInvalidCheckpoint st' = hashCheckpoint this'
         /\ count ix (hashInvalidCheckpoint st') = true))
  /\ (forall b st',
        AcceptPendingSyncCheckpoint fuel nd ix st = Done (b, st') ->
        hashInvalidCheckpoint st' = hashInvalidCheckpoint st
        \/ (b = false /\ hashInvalidCheckpoint st' = hashPendingCheckpoint st
            /\ count ix (hashInvalidCheckpoint st') = true))
  /\ (forall hashBlock pindexPrev b st',
        CheckSyncCheckpoint fuel nd ix hashBlock pindexPrev st
          = Done (b, st') ->
        hashInvalidCheckpoint st' = hashInvalidCheckpoint st)
  /\ (forall b st',
        ResetSyncCheckpoint nd ix st = Done (b, st') ->
        hashInvalidCheckpoint st' = hashInvalidCheckpoint st).
Proof.
  split; [|split; [|split]].
  - intros this b this' st' Hp.
    unfold ProcessSyncCheckpoint, CheckSignature in Hp.
    destruct (signature_verifies nd this); simpl in Hp;
      [|injection Hp as <- <- <-; by left].
    destruct (Unserialize (vchMsg this)) as [h|]; [|done]. simpl in Hp.
    destruct (count ix h); simpl in Hp; [|injection Hp as <- <- <-; by left].
    destruct (ValidateSyncCheckpoint fuel ix h st) as [[valid st1]|] eqn:Hv;
      simpl in Hp; [|done].
    destruct (validate_marker _ _ _ _ _ _ Hv) as [->|(-> & -> & Hc)].
    + destruct valid; simpl in Hp; [|injection Hp as <- <- <-; by left].
      unfold WriteSyncCheckpoint in Hp.
      destruct (txdbWrite nd h); simpl in Hp; injection Hp as <- <- <-;
        by left.
    + simpl in Hp. injection Hp as <- <- <-. right. done.
  - intros b st' Ha. unfold AcceptPendingSyncCheckpoint in Ha.
    destruct (negb (hashPendingCheckpoint st =? uint256_zero)
              && count ix (hashPendingCheckpoint st)); simpl in Ha;
      [|injection Ha as <- <-; by left].
    destruct (ValidateSyncCheckpoint fuel ix (hashPendingCheckpoint st) st)
      as [[valid st1]|] eqn:Hv; simpl in Ha; [|done].
    destruct (validate_marker _ _ _ _ _ _ Hv) as [->|(-> & -> & Hc)].
    + destruct valid; simpl in Ha; [|injection Ha as <- <-; by left].
      destruct (at_hash ix (hashPendingCheckpoint st)) as [p|]; [|done].
      simpl in Ha. destruct (Contains ix p) as [[|]|]; simpl in Ha;
        [| injection Ha as <- <-; by left | done].
      unfold WriteSyncCheckpoint in Ha.
      destruct (txdbWrite nd (hashPendingCheckpoint st)); simpl in Ha;
        injection Ha as <- <-; by left.
    + simpl in Ha. injection Ha as <- <-. right. done.
  - intros hashBlock pindexPrev b st' Hc. unfold CheckSyncCheckpoint in Hc.
    unfold mbind, outcome_bind in Hc.
    destruct (deref ix pindexPrev) as [bPrev|]; [|done].
    destruct (_ || _).
    { injection Hc as <- <-. unfold WriteSyncCheckpoint.
      by destruct (txdbWrite nd (hashGenesisBlock nd)). }
    destruct (at_hash ix (hashSyncCheckpoint st)) as [ps|]; [|done].
    destruct (deref ix ps) as [bs|]; [|done].
    destruct (_ <? _).
    + destruct (trace_back _ _ _ _) as [[q|]|]; [| |done].
      * destruct (Contains ix q) as [[|]|]; simpl in Hc; [| |done];
          by injection Hc as <- <-.
      * by injection Hc as <- <-.
    + by injection Hc as <- <-.
  - intros b st' Hr. unfold ResetSyncCheckpoint in Hr.
    unfold mbind, outcome_bind in Hr.
    destruct (if count ix (hashLatestHardened nd) then _ else _)
      as [onChain|]; [|done].
    injection Hr as Hw. unfold WriteSyncCheckpoint in Hw.
    destruct (txdbWrite nd _); simpl in Hw; injection Hw as <- <-;
      by destruct (negb (count ix (hashLatestHardened nd))).
Qed.

Lemma invalid_marker_never_cleared_witness :
  hashInvalidCheckpoint (set_hashInvalidCheckpoint 102 (Sample.st0 103)) = 102
  /\ count Sample.ix 102 = true.
Proof.
  destruct (proj1 (@invalid_marker_never_cleared Sample.prims 2
                     (Sample.nd (-1) true) Sample.ix (Sample.st0 103))
              Sample.msg102 false Sample.msg102
              (set_hashInvalidCheckpoint 102 (Sample.st0 103)) eq_refl)
    as [Hsame|(_ & Hm & Hc)].
  - discriminate Hsame.
  - split; [exact Hm | exact Hc].
Defined.
